(** * Embedding pipeline and batch splitters of the vector-database notebook

    Shallow embedding of the Python code of
    [examples/vector_databases/Using_vector_databases_for_embeddings_search.ipynb]:
    [get_embeddings], [batchify], [embed_corpus] and the class
    [BatchGenerator] ([to_batches], [splits_num]).

    Python integers are [Z]; lists and DataFrames (seen as their ordered
    rows) are [list]; a raised exception is the [Raised] branch of
    [outcome]; the futures of the thread pool are a list of cells updated
    by index; the remote endpoint and what the run prints or sends are
    threaded through as an explicit [world]. *)

From Stdlib Require Import ZArith QArith_base.
From stdpp Require Import base list strings gmap pretty.

Local Open Scope Z_scope.

(** ** Exceptions and results *)

(** Failures of the embedding endpoint, following the taxonomy of its
    client: rate limiting and network trouble are transient, the rest is
    permanent. *)
Inductive service_error : Type :=
  | RateLimitError
  | APIConnectionError
  | InvalidRequestError.

Inductive exn : Type :=
  | ValueError
  | ZeroDivisionError
  | ServiceError (e : service_error).

Inductive outcome (A : Type) : Type :=
  | Returned (a : A)
  | Raised (e : exn).
Arguments Returned {A} a.
Arguments Raised {A} e.

(** Sequencing: an exception raised by the first computation skips the
    rest. *)
Definition bind {A B : Type} (m : outcome A) (k : A → outcome B) : outcome B :=
  match m with
  | Returned a => k a
  | Raised e => Raised e
  end.

Notation "'let!' x ':=' m 'in' k" := (bind m (λ x, k))
  (at level 10, x name, m at level 100, k at level 200).

(** ** Python primitives used by the notebook *)

(** Normalisation of one bound of a slice [l[lo:hi]] on a sequence of
    length [len]: a negative bound counts from the end, and every bound is
    clipped to [0..len]. *)
Definition slice_bound (len i : Z) : Z :=
  if i <? 0 then Z.max 0 (i + len) else Z.min i len.

(** [l[lo:hi]] *)
Definition py_slice {A : Type} (l : list A) (lo hi : Z) : list A :=
  let len := Z.of_nat (length l) in
  let lo' := slice_bound len lo in
  let hi' := slice_bound len hi in
  take (Z.to_nat (hi' - lo')) (drop (Z.to_nat lo') l).

(** The iteration of [range(start, stop, step)]: the counter advances by
    [step] as long as it has not passed [stop]. *)
Definition before_stop (step cur stop : Z) : bool :=
  if 0 <? step then cur <? stop else stop <? cur.

Fixpoint range_loop (fuel : nat) (cur stop step : Z) : list Z :=
  match fuel with
  | O => []
  | S fuel' =>
      if before_stop step cur stop
      then cur :: range_loop fuel' (cur + step) stop step
      else []
  end.

(** [range(start, stop, step)]; a zero step is a [ValueError].  The
    distance [|stop - start|] bounds the number of iterations. *)
Definition py_range (start stop step : Z) : outcome (list Z) :=
  if step =? 0 then Raised ValueError
  else Returned (range_loop (Z.to_nat (Z.abs (stop - start))) start stop step).

(** [round(a / b)] for integers [a], [b]: true division followed by the
    built-in [round], which rounds to the nearest integer and a tie to the
    even one.  The quotient is taken exactly; the double that Python
    computes rounds to the same integer as long as [|a| < 2^52], far above
    any row count.  Division by zero raises. *)
Definition round_half_even (a b : Z) : Z :=
  let q := a / b in
  let r := a mod b in
  match Z.abs (2 * r) ?= Z.abs b with
  | Lt => q
  | Gt => q + 1
  | Eq => if Z.even q then q else q + 1
  end.

Definition py_round_div (a b : Z) : outcome Z :=
  if b =? 0 then Raised ZeroDivisionError else Returned (round_half_even a b).

(** ** [batchify]

<<
def batchify(iterable, n=1):
    l = len(iterable)
    for ndx in range(0, l, n):
        yield iterable[ndx : min(ndx + n, l)]
>>
    The generator is represented by the list of the chunks it yields; the
    only exception it can raise comes from [range], before the first
    chunk. *)
Definition batchify {A : Type} (iterable : list A) (n : Z) : outcome (list (list A)) :=
  let l := Z.of_nat (length iterable) in
  let! ndxs := py_range 0 l n in
  Returned ((λ ndx, py_slice iterable ndx (Z.min (ndx + n) l)) <$> ndxs).

(** ** [BatchGenerator] *)

(** [numpy.array_split(ary, Nsections)] along the first axis, as numpy
    defines it: with [Neach_section, extras = divmod(Ntotal, Nsections)]
    the section sizes are [extras] times [Neach_section + 1] followed by
    [Nsections - extras] times [Neach_section]; the division points are
    their running sums and section [i] is [ary[div_points[i] :
    div_points[i+1]]].  A section count that is not positive is a
    [ValueError]. *)
Fixpoint cumsum_from (acc : Z) (xs : list Z) : list Z :=
  match xs with
  | [] => []
  | x :: xs' => (acc + x) :: cumsum_from (acc + x) xs'
  end.

Definition cumsum (xs : list Z) : list Z := cumsum_from 0 xs.

Definition section_sizes (Ntotal Nsections : Z) : list Z :=
  let Neach_section := Ntotal / Nsections in
  let extras := Ntotal mod Nsections in
  [0] ++ replicate (Z.to_nat extras) (Neach_section + 1)
      ++ replicate (Z.to_nat (Nsections - extras)) Neach_section.

Definition array_split {A : Type} (ary : list A) (Nsections : Z) : outcome (list (list A)) :=
  let Ntotal := Z.of_nat (length ary) in
  if Nsections <=? 0 then Raised ValueError
  else
    let div_points := cumsum (section_sizes Ntotal Nsections) in
    Returned ((λ i : nat, py_slice ary (div_points !!! i) (div_points !!! S i))
            <$> seq 0 (Z.to_nat Nsections)).

(**
<<
class BatchGenerator:
    def __init__(self, batch_size: int = 10) -> None:
        self.batch_size = batch_size

    def to_batches(self, df):
        splits = self.splits_num(df.shape[0])
        if splits <= 1:
            yield df
        else:
            for chunk in np.array_split(df, splits):
                yield chunk

    def splits_num(self, elements: int) -> int:
        return round(elements / self.batch_size)
>>
*)
Record BatchGenerator : Type := { batch_size : Z }.

Definition splits_num (self : BatchGenerator) (elements : Z) : outcome Z :=
  py_round_div elements (batch_size self).

Definition to_batches {A : Type} (self : BatchGenerator) (df : list A)
  : outcome (list (list A)) :=
  let! splits := splits_num self (Z.of_nat (length df)) in
  if splits <=? 1 then Returned [df] else array_split df splits.

Definition df_batcher : BatchGenerator := {| batch_size := 300 |}.


(** ** The embedding pipeline *)

Definition token : Type := Z.

(** What the run does to the outside, in program order. *)
Inductive event : Type :=
  | EvPrint (num_articles num_tokens : Z) (cost_to_embed_tokens : Q)
  | EvSubmit (future_id : nat) (text_batch : list (list token))
  | EvRequest (input : list (list token))
  | EvProgress (n : Z).

Section Pipeline.

(** The tokenizer [tiktoken.get_encoding("cl100k_base").encode]: a fixed
    deterministic function of the text. *)
Variable encode : string → list token.

(** The embedding endpoint [openai.Embedding.create(input=…, model=…)]:
    a remote service with a state of its own, answering a request with
    the ["data"] list of the response or with an error. *)
Variable vector : Type.
Variable service : Type.

Record datum : Type := { embedding : vector }.

Variable create : service → list (list token) → outcome (list datum) * service.

Record world : Type := { remote : service; trace : list event }.

(** Computations that may raise and that act on the world. *)
Definition io (A : Type) : Type := world → outcome A * world.

Definition io_ret {A : Type} (a : A) : io A := λ w, (Returned a, w).

Definition io_bind {A B : Type} (m : io A) (k : A → io B) : io B := λ w,
  match m w with
  | (Returned a, w') => k a w'
  | (Raised e, w') => (Raised e, w')
  end.

Definition lift {A : Type} (r : outcome A) : io A := λ w, (r, w).

Definition emit (ev : event) : io unit := λ w,
  (Returned (), {| remote := remote w; trace := trace w ++ [ev] |}).

Notation "'let*' x ':=' m 'in' k" := (io_bind m (λ x, k))
  (at level 10, x name, m at level 100, k at level 200).
Notation "m ';;;' k" := (io_bind m (λ _, k))
  (at level 100, k at level 200, right associativity).

(**
<<
def get_embeddings(input: List):
    response = openai.Embedding.create(
        input=input,
        model=EMBEDDING_MODEL,
    )["data"]
    return [data["embedding"] for data in response]
>>
*)
Definition get_embeddings (input : list (list token)) : io (list vector) :=
  emit (EvRequest input);;;
  let* response := (λ w,
    let '(r, s) := create (remote w) input in
    (r, {| remote := s; trace := trace w |})) in
  io_ret (embedding <$> response).

(** A future of the executor: the argument of the submitted call and,
    once a worker has run it, its result or the exception it raised. *)
Record future : Type := {
  fn_arg : list (list token);
  state : option (outcome (list vector))
}.

(** [executor.submit(get_embeddings, text_batch)] appended to the list
    of futures. *)
Definition submit (futures : list future) (text_batch : list (list token))
  : io (list future) :=
  emit (EvSubmit (length futures) text_batch);;;
  io_ret (futures ++ [{| fn_arg := text_batch; state := None |}]).

Fixpoint submit_all (futures : list future) (batches : list (list (list token)))
  : io (list future) :=
  match batches with
  | [] => io_ret futures
  | text_batch :: rest =>
      let* futures' := submit futures text_batch in
      submit_all futures' rest
  end.

(** A worker finishes future [i]: the call runs, its outcome is stored in
    the future (an exception is stored, not propagated), and the loop
    over [as_completed] advances the progress bar.  A future that is
    already done, or an index that names no future, changes nothing. *)
Definition complete (batch_size : Z) (i : nat) (futures : list future)
  : io (list future) := λ w,
  match futures !! i with
  | Some {| fn_arg := input; state := None |} =>
      let '(r, w') := get_embeddings input w in
      (emit (EvProgress batch_size);;;
       io_ret (<[i := {| fn_arg := input; state := Some r |}]> futures)) w'
  | _ => (Returned futures, w)
  end.

Fixpoint complete_in_order (batch_size : Z) (order : list nat) (futures : list future)
  : io (list future) :=
  match order with
  | [] => io_ret futures
  | i :: rest =>
      let* futures' := complete batch_size i futures in
      complete_in_order batch_size rest futures'
  end.

(** [for _ in concurrent.futures.as_completed(futures): pbar.update(batch_size)]:
    the futures complete in an order chosen by the pool, here [sched];
    the loop ends only when every future is done, so those that [sched]
    does not name complete after it.  Each call is taken as one step of
    its worker, and the calls as starting once the batches are submitted;
    a worker that starts earlier only moves its request among the
    submissions in the trace. *)
Definition as_completed (sched : list nat) (batch_size : Z) (futures : list future)
  : io (list future) :=
  complete_in_order batch_size (sched ++ seq 0 (length futures)) futures.

(** [future.result()]: the stored result, re-raising a stored exception;
    on a future that is still pending it waits for the call to finish. *)
Definition result (fut : future) : io (list vector) :=
  match state fut with
  | Some r => lift r
  | None => get_embeddings (fn_arg fut)
  end.

(**
<<
        embeddings = []
        for future in futures:
            data = future.result()
            embeddings.extend(data)

        return embeddings
>>
*)
Fixpoint gather (futures : list future) (embeddings : list vector) : io (list vector) :=
  match futures with
  | [] => io_ret embeddings
  | fut :: rest =>
      let* data := result fut in
      gather rest (embeddings ++ data)
  end.

Definition encode_batch (corpus : list string) : list (list token) :=
  encode <$> corpus.

(** [encoded_article[:max_context_len]] *)
Definition truncate (max_context_len : Z) (encoded_article : list token) : list token :=
  py_slice encoded_article 0 max_context_len.

Definition encoded_corpus (corpus : list string) (max_context_len : Z)
  : list (list token) :=
  truncate max_context_len <$> encode_batch corpus.

Definition num_tokens (encoded : list (list token)) : Z :=
  foldr Z.add 0 ((λ article, Z.of_nat (length article)) <$> encoded).

(** [num_tokens / 1_000 * 0.0004], as an exact rational. *)
Definition cost_to_embed_tokens (n : Z) : Q :=
  Qmult (Qdiv (inject_Z n) (inject_Z 1000)) (Qmake 4 10000).

(** [ThreadPoolExecutor(max_workers=num_workers)] refuses a worker count
    that is not positive. *)
Definition thread_pool_executor (num_workers : Z) : io unit :=
  if num_workers <=? 0 then lift (Raised ValueError) else io_ret ().

(**
<<
def embed_corpus(corpus, batch_size=64, num_workers=8, max_context_len=8191):
    encoding = tiktoken.get_encoding("cl100k_base")
    encoded_corpus = [
        encoded_article[:max_context_len] for encoded_article in encoding.encode_batch(corpus)
    ]
    num_tokens = sum(len(article) for article in encoded_corpus)
    cost_to_embed_tokens = num_tokens / 1_000 * 0.0004
    print(f"num_articles={len(encoded_corpus)}, num_tokens={num_tokens}, ...")
    with concurrent.futures.ThreadPoolExecutor(max_workers=num_workers) as executor:
        futures = [
            executor.submit(get_embeddings, text_batch)
            for text_batch in batchify(encoded_corpus, batch_size)
        ]
        with tqdm(total=len(encoded_corpus)) as pbar:
            for _ in concurrent.futures.as_completed(futures):
                pbar.update(batch_size)
        ... gather ...
>>
    [sched] is the order in which the pool happens to complete the
    requests. *)
Definition embed_corpus (sched : list nat) (corpus : list string)
    (batch_size num_workers max_context_len : Z) : io (list vector) :=
  let encoded := encoded_corpus corpus max_context_len in
  let n := num_tokens encoded in
  emit (EvPrint (Z.of_nat (length encoded)) n (cost_to_embed_tokens n));;;
  thread_pool_executor num_workers;;;
  let* batches := lift (batchify encoded batch_size) in
  let* futures := submit_all [] batches in
  let* futures := as_completed sched batch_size futures in
  gather futures [].

End Pipeline.

Arguments embedding {vector} _.
Arguments Build_datum {vector} _.
Arguments remote {service} _.
Arguments trace {service} _.
Arguments Build_world {service} _ _.
Arguments fn_arg {vector} _.
Arguments state {vector} _.
Arguments Build_future {vector} _ _.
Arguments io_ret {service A} _ _.
Arguments io_bind {service A B} _ _ _.
Arguments lift {service A} _ _.
Arguments emit {service} _ _.
Arguments get_embeddings {vector service} create input _.
Arguments submit {vector service} futures text_batch _.
Arguments submit_all {vector service} futures batches _.
Arguments complete {vector service} create batch_size i futures _.
Arguments complete_in_order {vector service} create batch_size order futures _.
Arguments as_completed {vector service} create sched batch_size futures _.
Arguments result {vector service} create fut _.
Arguments gather {vector service} create futures embeddings _.
Arguments thread_pool_executor {service} num_workers _.
Arguments embed_corpus encode {vector service} create sched corpus
  batch_size num_workers max_context_len _.

(** ** Loading and querying the vector stores *)

(** A row of [article_df], with the columns the notebook reads. *)
Record article (vector : Type) : Type := {
  title : string;
  text : string;
  title_vector : vector;
  content_vector : vector;
  vector_id : string
}.
Arguments title {vector} _.
Arguments text {vector} _.
Arguments title_vector {vector} _.
Arguments content_vector {vector} _.
Arguments vector_id {vector} _.

(** [article_df['vector_id'] = article_df.index] followed by [.apply(str)]:
    the row numbers of a frame of [n] rows, in decimal. *)
Definition vector_ids (n : nat) : list string := pretty <$> seq 0 n.

(** [dict(pairs)]: a later pair replaces an earlier one with the same key. *)
Definition py_dict {V : Type} (pairs : list (string * V)) : gmap string V :=
  foldl (λ d kv, <[kv.1 := kv.2]> d) ∅ pairs.

(** [titles_mapped = dict(zip(article_df.vector_id, article_df.title))] and
    [content_mapped = dict(zip(article_df.vector_id, article_df.text))] *)
Definition titles_mapped {vector : Type} (article_df : list (article vector))
  : gmap string string :=
  py_dict (zip (vector_id <$> article_df) (title <$> article_df)).

Definition content_mapped {vector : Type} (article_df : list (article vector))
  : gmap string string :=
  py_dict (zip (vector_id <$> article_df) (text <$> article_df)).

(** Exceptions of the query path, and its results. *)
Inductive query_exn : Type :=
  | KeyError (key : string)
  | IndexError
  | Upstream (e : exn).

Inductive reply (A : Type) : Type :=
  | Ok (a : A)
  | Failed (e : query_exn).
Arguments Ok {A} a.
Arguments Failed {A} e.

(** What [query_article] prints: the header, the notice of an empty
    result, one line per match, and the closing blank line. *)
Inductive line (score : Type) : Type :=
  | LineHeader (query namespace : string)
  | LineNoResult
  | LineMatch (title : string) (s : score)
  | LineBlank.
Arguments LineHeader {score} query namespace.
Arguments LineNoResult {score}.
Arguments LineMatch {score} title s.
Arguments LineBlank {score}.

(** [mapped[_id] for _id in ids]: a key that is missing raises. *)
Fixpoint lookup_each (mapped : gmap string string) (ids : list string)
  : reply (list string) :=
  match ids with
  | [] => Ok []
  | _id :: rest =>
      match mapped !! _id with
      | None => Failed (KeyError _id)
      | Some x =>
          match lookup_each mapped rest with
          | Ok xs => Ok (x :: xs)
          | Failed e => Failed e
          end
      end
  end.

Section VectorStores.

Variable vector : Type.

(** Pinecone: [index.upsert(vectors=…, namespace=…)] and
    [index.query(vector, namespace=…, top_k=…)], calls to a remote index;
    a match of a query result has an [id] and a [score]. *)
Variable index : Type.
Variable score : Type.

Record upsert_request : Type := {
  vectors : list (string * vector);
  namespace : string
}.

Record scored_match : Type := { match_id : string; match_score : score }.

Variable index_upsert : index → list (string * vector) → string → outcome unit * index.
Variable index_query : index → vector → string → Z → outcome (list scored_match).

(** Weaviate: [client.data_object.create(properties, class_name, vector=…)]. *)
Variable client : Type.
Variable uuid : Type.
Variable data_object_create :
  client → string → string → string → vector → outcome uuid * client.

(** The embedding endpoint called on a query string. *)
Variable service : Type.
Variable embedding_create : service → string → outcome (list (datum vector)) * service.

(**
<<
for batch_df in df_batcher(article_df):
    index.upsert(vectors=zip(batch_df.vector_id, batch_df.content_vector), namespace='content')
>>
    for the vector column [column] and the namespace [ns]; [log] collects
    the requests made, the failed one included. *)
Fixpoint upsert_batches (column : article vector → vector) (ns : string)
    (batches : list (list (article vector))) (ix : index) (log : list upsert_request)
  : outcome unit * index * list upsert_request :=
  match batches with
  | [] => (Returned (), ix, log)
  | batch_df :: rest =>
      let vs := zip (vector_id <$> batch_df) (column <$> batch_df) in
      let log' := log ++ [{| vectors := vs; namespace := ns |}] in
      match index_upsert ix vs ns with
      | (Returned _, ix') => upsert_batches column ns rest ix' log'
      | (Raised e, ix') => (Raised e, ix', log')
      end
  end.

Definition upsert_column (self : BatchGenerator) (column : article vector → vector)
    (ns : string) (article_df : list (article vector)) (ix : index)
    (log : list upsert_request)
  : outcome unit * index * list upsert_request :=
  match to_batches self article_df with
  | Raised e => (Raised e, ix, log)
  | Returned batches => upsert_batches column ns batches ix log
  end.

(**
<<
data_objects = []
for k,v in article_df.iterrows():
    data_objects.append((v['title'],v['text'],v['title_vector'],v['vector_id']))
>>
*)
Definition data_objects (article_df : list (article vector))
  : list (string * string * vector * string) :=
  (λ v, (title v, text v, title_vector v, vector_id v)) <$> article_df.

(**
<<
uuids = []
for batch_df in df_batcher(article_df):
    for k,v in batch_df.iterrows():
        uuid = client.data_object.create(
            {"title": v['title'], "content": v['text']},
            "Article",
            vector=v['title_vector'])
        uuids.append(uuid)
>>
    The inner loop, the outer loop, and the cell. *)
Fixpoint create_rows (rows : list (article vector)) (uuids : list uuid) (c : client)
  : outcome unit * list uuid * client :=
  match rows with
  | [] => (Returned (), uuids, c)
  | v :: rest =>
      match data_object_create c (title v) (text v) "Article" (title_vector v) with
      | (Returned u, c') => create_rows rest (uuids ++ [u]) c'
      | (Raised e, c') => (Raised e, uuids, c')
      end
  end.

Fixpoint create_batches (batches : list (list (article vector))) (uuids : list uuid)
    (c : client) : outcome unit * list uuid * client :=
  match batches with
  | [] => (Returned (), uuids, c)
  | batch_df :: rest =>
      match create_rows batch_df uuids c with
      | (Returned _, uuids', c') => create_batches rest uuids' c'
      | (Raised e, uuids', c') => (Raised e, uuids', c')
      end
  end.

Definition import_articles (self : BatchGenerator) (article_df : list (article vector))
    (c : client) : outcome unit * list uuid * client :=
  match to_batches self article_df with
  | Raised e => (Raised e, [], c)
  | Returned batches => create_batches batches [] c
  end.

(** A row of the frame that [query_article] returns. *)
Record result_row : Type := {
  row_id : string;
  row_score : score;
  row_title : string;
  row_content : string
}.

(**
<<
def query_article(query, namespace, top_k=5):
    embedded_query = openai.Embedding.create(
        input=query, model=EMBEDDING_MODEL)["data"][0]['embedding']
    query_result = index.query(embedded_query, namespace=namespace, top_k=top_k)
    print(f'\nMost similar results to {query} in "{namespace}" namespace:\n')
    if not query_result.matches:
        print('no query result')
    matches = query_result.matches
    ids = [res.id for res in matches]
    scores = [res.score for res in matches]
    df = pd.DataFrame({'id':ids,
                       'score':scores,
                       'title': [titles_mapped[_id] for _id in ids],
                       'content': [content_mapped[_id] for _id in ids],
                       })
    counter = 0
    for k,v in df.iterrows():
        counter += 1
        print(f'{v.title} (score = {v.score})')
    print('\n')
    return df
>>
    [titles] and [content] are the two global dictionaries; [out] collects
    what is printed. *)
Definition query_article (titles content : gmap string string) (ix : index)
    (query ns : string) (top_k : Z) (svc : service) (out : list (line score))
  : reply (list result_row) * service * list (line score) :=
  match embedding_create svc query with
  | (Raised e, svc') => (Failed (Upstream e), svc', out)
  | (Returned [], svc') => (Failed IndexError, svc', out)
  | (Returned (d :: _), svc') =>
      let embedded_query := embedding d in
      match index_query ix embedded_query ns top_k with
      | Raised e => (Failed (Upstream e), svc', out)
      | Returned matches =>
          let out1 := out ++ [LineHeader query ns]
                          ++ (match matches with [] => [LineNoResult] | _ :: _ => [] end) in
          let ids := match_id <$> matches in
          let scores := match_score <$> matches in
          match lookup_each titles ids with
          | Failed e => (Failed e, svc', out1)
          | Ok ts =>
              match lookup_each content ids with
              | Failed e => (Failed e, svc', out1)
              | Ok cs =>
                  let df := zip_with (λ '(i, s) '(t, c),
                                        {| row_id := i; row_score := s;
                                           row_title := t; row_content := c |})
                              (zip ids scores) (zip ts cs) in
                  (Ok df, svc',
                   out1 ++ ((λ v, LineMatch (row_title v) (row_score v)) <$> df)
                        ++ [LineBlank])
              end
          end
      end
  end.

End VectorStores.

Arguments vectors {vector} _.
Arguments namespace {vector} _.
Arguments Build_upsert_request {vector} _ _.
Arguments match_id {score} _.
Arguments match_score {score} _.
Arguments Build_scored_match {score} _ _.
Arguments row_id {score} _.
Arguments row_score {score} _.
Arguments row_title {score} _.
Arguments row_content {score} _.
Arguments Build_result_row {score} _ _ _ _.
Arguments upsert_batches {vector index} index_upsert column ns batches ix log.
Arguments upsert_column {vector index} index_upsert self column ns article_df ix log.
Arguments data_objects {vector} article_df.
Arguments create_rows {vector client uuid} data_object_create rows uuids c.
Arguments create_batches {vector client uuid} data_object_create batches uuids c.
Arguments import_articles {vector client uuid} data_object_create self article_df c.
Arguments query_article {vector index score} index_query {service} embedding_create
  titles content ix query ns top_k svc out.

(** ** Auxiliary definitions for the proofs *)

(** Number of values of [range(start, stop, step)] for a positive step. *)
Definition range_len (start stop step : Z) : nat :=
  Z.to_nat ((stop - start + step - 1) / step).

Definition sum_list_Z (xs : list Z) : Z := foldr Z.add 0 xs.

(** Consecutive sections of [l] of the given sizes, the first one starting
    at position [acc]. *)
Fixpoint sections_from {A : Type} (l : list A) (acc : Z) (sizes : list Z) : list (list A) :=
  match sizes with
  | [] => []
  | s :: sizes' =>
      take (Z.to_nat s) (drop (Z.to_nat acc) l) :: sections_from l (acc + s) sizes'
  end.

(** What [get_embeddings] returns for [input] when the endpoint is in
    state [σ]. *)
Definition response_of {vector service : Type}
    (create : service → list (list token) → outcome (list (datum vector)) * service)
    (σ : service) (input : list (list token)) : outcome (list vector) :=
  match (create σ input).1 with
  | Returned response => Returned (embedding <$> response)
  | Raised e => Raised e
  end.

(** A future that no worker has run yet. *)
Definition pending {vector : Type} (text_batch : list (list token)) : future vector :=
  {| fn_arg := text_batch; state := None |}.

(** A future is settled with respect to the events [added] by the run when
    it is still pending, or when its stored outcome is the answer of the
    endpoint to a request for its batch that the run has sent. *)
Definition settled {vector service : Type}
    (create : service → list (list token) → outcome (list (datum vector)) * service)
    (added : list event) (fut : future vector) : Prop :=
  match state fut with
  | None => True
  | Some r => (∃ σ, r = response_of create σ (fn_arg fut)) ∧ EvRequest (fn_arg fut) ∈ added
  end.

(** What a stretch of the completion loop achieves, starting from the
    futures [futs] when the run has added the events [added] to the trace
    [base] it began with: it raises nothing, it only adds events, it keeps
    the batch of every future and the outcome of every finished one, it
    leaves every future settled, and the futures named in [done_now] are
    finished. *)
Definition loop_ok {vector service : Type}
    (create : service → list (list token) → outcome (list (datum vector)) * service)
    (base added : list event) (futs : list (future vector)) (done_now : list nat)
    (res : outcome (list (future vector)) * world service) : Prop :=
  ∃ futs' w' more, res = (Returned futs', w')
    ∧ trace w' = base ++ added ++ more
    ∧ fn_arg <$> futs' = fn_arg <$> futs
    ∧ Forall (settled create (added ++ more)) futs'
    ∧ (∀ j fut, futs !! j = Some fut → is_Some (state fut) → futs' !! j = Some fut)
    ∧ (∀ i, i ∈ done_now → (i < length futs)%nat →
         ∃ fut, futs' !! i = Some fut ∧ is_Some (state fut)).

(** The requests that a trace shows, in the order they were sent. *)
Definition requests_sent (tr : list event) : list (list (list token)) :=
  omap (λ ev, match ev with EvRequest input => Some input | _ => None end) tr.

(** A tokenizer and two endpoints to run the pipeline on: the tokens of a
    text are its character codes, the vector of a token sequence is the sum
    of its tokens, and the state of an endpoint is the number of requests
    it has received.  The throttled endpoint turns its first request down
    and serves all later ones. *)
Definition char_codes (text : string) : list token :=
  (λ c, Z.of_nat (Ascii.nat_of_ascii c)) <$> String.list_ascii_of_string text.

Definition steady_endpoint (requests : nat) (input : list (list token))
  : outcome (list (datum Z)) * nat :=
  (Returned ((λ t, {| embedding := sum_list_Z t |}) <$> input), S requests).

Definition throttled_endpoint (requests : nat) (input : list (list token))
  : outcome (list (datum Z)) * nat :=
  match requests with
  | O => (Raised (ServiceError RateLimitError), S requests)
  | S _ => steady_endpoint requests input
  end.

(** An endpoint that turns down, whenever it is asked, a request holding
    an empty token sequence. *)
Definition strict_endpoint (requests : nat) (input : list (list token))
  : outcome (list (datum Z)) * nat :=
  if existsb (λ t, match t with [] => true | _ :: _ => false end) input
  then (Raised (ServiceError InvalidRequestError), S requests)
  else steady_endpoint requests input.

(** A corpus whose second text is blank. *)
Definition blank_second : list string :=
  ["April is a month."%string; EmptyString].

Definition months : list string :=
  ["April is a month."%string; "August is a month."%string].

(** The batches of the futures that no worker has run yet. *)
Definition pending_args {vector : Type} (futs : list (future vector))
  : list (list (list token)) :=
  omap (λ fut, match state fut with None => Some (fn_arg fut) | Some _ => None end) futs.

(** The total by which a trace advances the progress bar. *)
Definition progress_sum (tr : list event) : Z :=
  sum_list_Z (omap (λ ev, match ev with EvProgress n => Some n | _ => None end) tr).

(** The submissions that a trace shows. *)
Definition submissions (tr : list event) : list (nat * list (list token)) :=
  omap (λ ev, match ev with EvSubmit i b => Some (i, b) | _ => None end) tr.

(** The request that the upsert loop makes for one batch. *)
Definition request_of {vector : Type} (column : article vector → vector) (ns : string)
    (batch_df : list (article vector)) : upsert_request vector :=
  {| vectors := zip (vector_id <$> batch_df) (column <$> batch_df); namespace := ns |}.

(** Two rows to load and query. *)
Definition two_articles : list (article Z) :=
  [ {| title := "April"; text := "April is a month."; title_vector := 1;
       content_vector := 10; vector_id := "0" |};
    {| title := "August"; text := "August is a month."; title_vector := 2;
       content_vector := 20; vector_id := "1" |} ].

(** An embedding endpoint for queries and an index that answers every query
    with the first [top_k] of the matches it holds. *)
Definition query_endpoint (svc : nat) (query : string) : outcome (list (datum Z)) * nat :=
  (Returned [{| embedding := sum_list_Z (char_codes query) |}], S svc).

Definition ranked_index (ix : list (scored_match Z)) (v : Z) (ns : string) (top_k : Z)
  : outcome (list (scored_match Z)) :=
  Returned (take (Z.to_nat top_k) ix).

(** The row that [query_article] builds for a match. *)
Definition row_of {score : Type} (titles content : gmap string string)
    (m : scored_match score) (v : result_row score) : Prop :=
  row_id v = match_id m ∧ row_score v = match_score m
  ∧ titles !! match_id m = Some (row_title v)
  ∧ content !! match_id m = Some (row_content v).

(** A row that reuses the vector id of the first of the two. *)
Definition may_article : article Z :=
  {| title := "May"; text := "May is a month."; title_vector := 3;
     content_vector := 30; vector_id := "0" |}.

(** An index that accepts every upsert and keeps what it is sent, and one
    that refuses every upsert. *)
Definition keeping_index (ix : list (string * Z)) (vs : list (string * Z)) (ns : string)
  : outcome unit * list (string * Z) :=
  (Returned (), ix ++ vs).

Definition refusing_index (ix : list (string * Z)) (vs : list (string * Z)) (ns : string)
  : outcome unit * list (string * Z) :=
  (Raised (ServiceError APIConnectionError), ix).

(** * Properties *)

(** ** Small runs of the two splitters *)

Example batchify_7_3 :
  batchify [1; 2; 3; 4; 5; 6; 7] 3 = Returned [[1; 2; 3]; [4; 5; 6]; [7]].
Proof. reflexivity. Qed.

Example to_batches_10_by_3 :
  to_batches {| batch_size := 3 |} [1; 2; 3; 4; 5; 6; 7; 8; 9; 10]
  = Returned [[1; 2; 3; 4]; [5; 6; 7]; [8; 9; 10]].
Proof. reflexivity. Qed.

Example to_batches_10_by_300 :
  to_batches df_batcher [1; 2; 3; 4; 5; 6; 7; 8; 9; 10]
  = Returned [[1; 2; 3; 4; 5; 6; 7; 8; 9; 10]].
Proof. reflexivity. Qed.

Example round_ties_to_even :
  round_half_even 5 2 = 2 ∧ round_half_even 7 2 = 4 ∧ round_half_even 25000 300 = 83.
Proof. repeat split; reflexivity. Qed.

(** ** Slices *)

Lemma py_slice_take_drop {A : Type} (l : list A) (lo hi : Z) :
  0 ≤ lo ≤ hi → hi ≤ Z.of_nat (length l) →
  py_slice l lo hi = take (Z.to_nat (hi - lo)) (drop (Z.to_nat lo) l).
Proof.
  intros Hlo Hhi. unfold py_slice, slice_bound.
  destruct (Z.ltb_spec lo 0), (Z.ltb_spec hi 0); try lia.
  by rewrite !Z.min_l by lia.
Qed.

Lemma py_slice_prefix {A : Type} (l : list A) (hi : Z) :
  0 ≤ hi → py_slice l 0 hi = take (Z.to_nat hi) l.
Proof.
  intros Hhi. unfold py_slice, slice_bound. simpl.
  destruct (Z.ltb_spec hi 0); [lia|].
  rewrite (Z.min_l 0) by lia. rewrite Z.sub_0_r. change (Z.to_nat 0) with 0%nat.
  rewrite drop_0.
  destruct (Z.le_gt_cases hi (Z.of_nat (length l))).
  - by rewrite Z.min_l by lia.
  - rewrite Z.min_r by lia. rewrite Nat2Z.id.
    rewrite !take_ge by lia. done.
Qed.

(** The slice taken by [batchify] at index [lo]: [n] elements from [lo]
    on, or what is left of the list. *)
Lemma py_slice_chunk {A : Type} (l : list A) (lo n : Z) :
  0 ≤ lo ≤ Z.of_nat (length l) → 0 ≤ n →
  py_slice l lo (Z.min (lo + n) (Z.of_nat (length l)))
  = take (Z.to_nat n) (drop (Z.to_nat lo) l).
Proof.
  intros Hlo Hn. rewrite py_slice_take_drop by lia.
  destruct (Z.le_gt_cases (lo + n) (Z.of_nat (length l))).
  - rewrite Z.min_l by lia. f_equal. lia.
  - rewrite Z.min_r by lia.
    rewrite !take_ge; [done | rewrite length_drop; lia | rewrite length_drop; lia].
Qed.

(** ** [range] *)

Lemma range_loop_closed_form (fuel : nat) (cur stop step : Z) :
  0 < step → stop - cur ≤ Z.of_nat fuel →
  range_loop fuel cur stop step
  = (λ k : nat, cur + Z.of_nat k * step) <$> seq 0 (range_len cur stop step).
Proof.
  intros Hstep. revert cur. unfold range_len.
  induction fuel as [|fuel IH]; intros cur Hfuel; simpl.
  - replace (Z.to_nat _) with 0%nat; [done|].
    assert ((stop - cur + step - 1) / step ≤ 0); [|lia].
    apply Z.lt_succ_r, Z.div_lt_upper_bound; lia.
  - unfold before_stop. destruct (Z.ltb_spec 0 step); [|lia].
    destruct (Z.ltb_spec cur stop).
    + rewrite IH by lia.
      replace (stop - cur + step - 1) with (stop - (cur + step) + step - 1 + 1 * step) by lia.
      rewrite Z.div_add by lia.
      assert (0 ≤ (stop - (cur + step) + step - 1) / step)
        by (apply Z.div_pos; lia).
      rewrite Z2Nat.inj_add by lia. rewrite Nat.add_comm. simpl.
      f_equal; [lia|].
      rewrite <- fmap_S_seq, <- list_fmap_compose.
      apply list_fmap_ext. intros _ k _. simpl. lia.
    + replace (Z.to_nat _) with 0%nat; [done|].
      assert ((stop - cur + step - 1) / step ≤ 0); [|lia].
      apply Z.lt_succ_r, Z.div_lt_upper_bound; lia.
Qed.

Lemma py_range_from_zero (stop step : Z) :
  0 < step → 0 ≤ stop →
  py_range 0 stop step
  = Returned ((λ k : nat, Z.of_nat k * step) <$> seq 0 (range_len 0 stop step)).
Proof.
  intros Hstep Hstop. unfold py_range.
  destruct (Z.eqb_spec step 0); [lia|].
  rewrite range_loop_closed_form by lia. done.
Qed.

Lemma range_len_bounds (stop step : Z) :
  0 < step → 0 ≤ stop →
  Z.of_nat (range_len 0 stop step) = (stop + step - 1) / step
  ∧ (Z.of_nat (range_len 0 stop step) - 1) * step < stop
  ∧ stop ≤ Z.of_nat (range_len 0 stop step) * step.
Proof.
  intros Hstep Hstop. unfold range_len. rewrite Z.sub_0_r.
  assert (0 ≤ (stop + step - 1) / step) by (apply Z.div_pos; lia).
  rewrite Z2Nat.id by done.
  pose proof (Z.mul_div_le (stop + step - 1) step Hstep).
  pose proof (Z.mul_succ_div_gt (stop + step - 1) step Hstep).
  repeat split; nia.
Qed.

(** ** [batchify] *)

(** With a positive chunk size, chunk [k] holds the [n] elements from
    position [k * n] on (fewer at the end of the list). *)
Lemma batchify_closed_form {A : Type} (iterable : list A) (n : Z) :
  1 ≤ n →
  batchify iterable n
  = Returned ((λ k : nat, take (Z.to_nat n) (drop (k * Z.to_nat n) iterable))
                <$> seq 0 (range_len 0 (Z.of_nat (length iterable)) n)).
Proof.
  intros Hn. unfold batchify.
  rewrite py_range_from_zero by lia. simpl. f_equal.
  rewrite <- list_fmap_compose. apply list_fmap_ext.
  intros i k Hk. apply lookup_seq in Hk as [-> Hi]. simpl.
  destruct (range_len_bounds (Z.of_nat (length iterable)) n) as (_ & Hlt & _); [lia..|].
  rewrite py_slice_chunk by nia.
  do 2 f_equal. nia.
Qed.

Lemma concat_consecutive_chunks {A : Type} (l : list A) (n m : nat) :
  concat ((λ k : nat, take n (drop (k * n) l)) <$> seq 0 m) = take (m * n) l.
Proof.
  induction m as [|m IH]; [done|].
  rewrite seq_S, fmap_app, concat_app, IH. simpl.
  rewrite app_nil_r, take_take_drop. f_equal. lia.
Qed.

Lemma batchify_concat {A : Type} (iterable : list A) (n : Z) :
  1 ≤ n →
  ∃ chunks, batchify iterable n = Returned chunks ∧ concat chunks = iterable.
Proof.
  intros Hn. eexists. split; [by apply batchify_closed_form|].
  rewrite concat_consecutive_chunks.
  destruct (range_len_bounds (Z.of_nat (length iterable)) n) as (_ & _ & Hge); [lia..|].
  apply take_ge. nia.
Qed.

Lemma batchify_chunk_length {A : Type} (iterable : list A) (n : Z) chunks (i : nat) chunk :
  1 ≤ n →
  batchify iterable n = Returned chunks →
  chunks !! i = Some chunk →
  chunk = take (Z.to_nat n) (drop (i * Z.to_nat n) iterable)
  ∧ Z.of_nat (i * Z.to_nat n) < Z.of_nat (length iterable)
  ∧ Z.of_nat (length chunk) = Z.min n (Z.of_nat (length iterable) - Z.of_nat i * n).
Proof.
  intros Hn Hb Hi. rewrite batchify_closed_form in Hb by done.
  injection Hb as <-.
  rewrite list_lookup_fmap in Hi.
  destruct (seq _ _ !! i) as [k|] eqn:Hk; [|done].
  apply lookup_seq in Hk as [-> Hlt]. simpl in Hi. injection Hi as <-.
  destruct (range_len_bounds (Z.of_nat (length iterable)) n) as (_ & Hlast & _); [lia..|].
  split; [done|]. split; [nia|].
  rewrite length_take, length_drop. nia.
Qed.

(** ** [array_split] *)

Lemma sum_list_Z_nonneg (sizes : list Z) :
  Forall (λ s, 0 ≤ s) sizes → 0 ≤ sum_list_Z sizes.
Proof. unfold sum_list_Z. induction 1; simpl; lia. Qed.

Lemma slices_at_div_points {A : Type} (l : list A) (sizes : list Z) (acc : Z) :
  Forall (λ s, 0 ≤ s) sizes → 0 ≤ acc →
  acc + sum_list_Z sizes ≤ Z.of_nat (length l) →
  (λ i : nat, py_slice l ((acc :: cumsum_from acc sizes) !!! i)
                         ((acc :: cumsum_from acc sizes) !!! S i))
    <$> seq 0 (length sizes)
  = sections_from l acc sizes.
Proof.
  intros Hsizes. revert acc.
  induction Hsizes as [|s sizes Hs Hrest IH]; intros acc Hacc Hsum; [done|].
  apply sum_list_Z_nonneg in Hrest.
  unfold sum_list_Z in *. simpl in *.
  rewrite <- fmap_S_seq, <- list_fmap_compose.
  f_equal.
  - rewrite py_slice_take_drop by lia. f_equal. lia.
  - rewrite <- IH by lia. done.
Qed.

Lemma concat_sections_from {A : Type} (l : list A) (sizes : list Z) (acc : Z) :
  Forall (λ s, 0 ≤ s) sizes → 0 ≤ acc →
  concat (sections_from l acc sizes)
  = take (Z.to_nat (sum_list_Z sizes)) (drop (Z.to_nat acc) l).
Proof.
  intros Hsizes. revert acc.
  induction Hsizes as [|s sizes Hs Hrest IH]; intros acc Hacc; [done|].
  pose proof (sum_list_Z_nonneg _ Hrest).
  change (sum_list_Z (s :: sizes)) with (s + sum_list_Z sizes).
  cbn [sections_from concat]. rewrite IH by lia.
  rewrite !Z2Nat.inj_add by lia.
  by rewrite <- take_take_drop, drop_drop.
Qed.

Lemma length_sections_from {A : Type} (l : list A) (sizes : list Z) (acc : Z) :
  Forall (λ s, 0 ≤ s) sizes → 0 ≤ acc →
  acc + sum_list_Z sizes ≤ Z.of_nat (length l) →
  (λ c, Z.of_nat (length c)) <$> sections_from l acc sizes = sizes.
Proof.
  intros Hsizes. revert acc.
  induction Hsizes as [|s sizes Hs Hrest IH]; intros acc Hacc Hsum; [done|].
  pose proof (sum_list_Z_nonneg _ Hrest).
  change (sum_list_Z (s :: sizes)) with (s + sum_list_Z sizes) in Hsum.
  cbn [sections_from fmap list_fmap]. rewrite IH by lia. f_equal.
  rewrite length_take, length_drop. lia.
Qed.

Lemma sum_list_Z_app (xs ys : list Z) :
  sum_list_Z (xs ++ ys) = sum_list_Z xs + sum_list_Z ys.
Proof. unfold sum_list_Z. induction xs; simpl; lia. Qed.

Lemma sum_list_Z_replicate (n : nat) (x : Z) :
  sum_list_Z (replicate n x) = Z.of_nat n * x.
Proof. unfold sum_list_Z. induction n; simpl; lia. Qed.

(** The sizes numpy gives to the sections: they are within one of each
    other, the larger ones first, and they add up to the whole. *)
Lemma section_sizes_spec (Ntotal Nsections : Z) :
  0 ≤ Ntotal → 1 ≤ Nsections →
  ∃ sizes, section_sizes Ntotal Nsections = 0 :: sizes
    ∧ length sizes = Z.to_nat Nsections
    ∧ sum_list_Z sizes = Ntotal
    ∧ Forall (λ s, Ntotal / Nsections ≤ s ≤ Ntotal / Nsections + 1) sizes.
Proof.
  intros HN Hk. unfold section_sizes.
  pose proof (Z.mod_pos_bound Ntotal Nsections ltac:(lia)) as Hmod.
  pose proof (Z.div_mod Ntotal Nsections ltac:(lia)) as Hdiv.
  eexists. split; [done|]. split; [|split].
  - rewrite length_app, !length_replicate. lia.
  - rewrite sum_list_Z_app, !sum_list_Z_replicate. nia.
  - apply Forall_app. split; apply Forall_replicate; lia.
Qed.

Lemma array_split_sections {A : Type} (ary : list A) (Nsections : Z) :
  1 ≤ Nsections →
  ∃ sizes, section_sizes (Z.of_nat (length ary)) Nsections = 0 :: sizes
    ∧ array_split ary Nsections = Returned (sections_from ary 0 sizes)
    ∧ length sizes = Z.to_nat Nsections
    ∧ sum_list_Z sizes = Z.of_nat (length ary)
    ∧ Forall (λ s, Z.of_nat (length ary) / Nsections ≤ s
                   ≤ Z.of_nat (length ary) / Nsections + 1) sizes.
Proof.
  intros Hk.
  destruct (section_sizes_spec (Z.of_nat (length ary)) Nsections)
    as (sizes & Hsz & Hlen & Hsum & Hall); [lia..|].
  exists sizes. repeat split; try done.
  unfold array_split. destruct (Z.leb_spec Nsections 0); [lia|].
  assert (Forall (λ s, 0 ≤ s) sizes).
  { eapply Forall_impl; [exact Hall|]. simpl. intros s Hs.
    pose proof (Z.div_pos (Z.of_nat (length ary)) Nsections). lia. }
  rewrite Hsz. unfold cumsum. cbn [cumsum_from]. change (0 + 0) with 0.
  rewrite <- Hlen. f_equal. apply slices_at_div_points; [done|lia..].
Qed.

(** ** [BatchGenerator] *)

(** The computed number of chunks never exceeds the number of rows. *)
Lemma round_half_even_bounds (N b : Z) :
  0 ≤ N → 1 ≤ b → 0 ≤ round_half_even N b ≤ N.
Proof.
  intros HN Hb. unfold round_half_even.
  pose proof (Z.mod_pos_bound N b ltac:(lia)) as Hmod.
  pose proof (Z.div_mod N b ltac:(lia)) as Hdiv.
  pose proof (Z.div_pos N b ltac:(lia) ltac:(lia)) as Hq.
  destruct (Z.compare_spec (Z.abs (2 * (N mod b))) (Z.abs b)) as [Heq|Hlt|Hgt].
  - destruct (Z.even (N / b)); nia.
  - nia.
  - nia.
Qed.

(** It is at most one exactly when the table has fewer than one and a half
    batches of rows. *)
Lemma round_half_even_small (N b : Z) :
  0 ≤ N → 1 ≤ b → (round_half_even N b ≤ 1 ↔ 2 * N < 3 * b).
Proof.
  intros HN Hb. unfold round_half_even.
  pose proof (Z.mod_pos_bound N b ltac:(lia)) as Hmod.
  pose proof (Z.div_mod N b ltac:(lia)) as Hdiv.
  pose proof (Z.div_pos N b ltac:(lia) ltac:(lia)) as Hq.
  destruct (Z.compare_spec (Z.abs (2 * (N mod b))) (Z.abs b)) as [Heq|Hlt|Hgt].
  - destruct (Z.even (N / b)) eqn:Hev.
    + assert (N / b ≠ 1) by (intros E; rewrite E in Hev; done).
      split; intros; nia.
    + assert (N / b ≠ 0) by (intros E; rewrite E in Hev; done).
      split; intros; nia.
  - split; intros; nia.
  - split; intros; nia.
Qed.

Lemma to_batches_cases {A : Type} (self : BatchGenerator) (df : list A) :
  1 ≤ batch_size self →
  let N := Z.of_nat (length df) in
  let splits := round_half_even N (batch_size self) in
  splits_num self N = Returned splits
  ∧ ((splits ≤ 1 ∧ to_batches self df = Returned [df])
     ∨ (2 ≤ splits ≤ N
        ∧ ∃ sizes, section_sizes N splits = 0 :: sizes
            ∧ to_batches self df = Returned (sections_from df 0 sizes)
            ∧ length sizes = Z.to_nat splits
            ∧ sum_list_Z sizes = N
            ∧ Forall (λ s, 1 ≤ s) sizes)).
Proof.
  intros Hb N splits.
  assert (splits_num self N = Returned splits) as Hsplits.
  { unfold splits_num, py_round_div. by destruct (Z.eqb_spec (batch_size self) 0); [lia|]. }
  split; [done|].
  unfold to_batches. fold N. rewrite Hsplits. simpl.
  destruct (Z.leb_spec splits 1); [by left|right].
  pose proof (round_half_even_bounds N (batch_size self) ltac:(lia) Hb).
  split; [lia|].
  destruct (array_split_sections df splits) as (sizes & Hsz & Hsplit & Hlen & Hsum & Hall); [lia|].
  exists sizes. repeat split; try done.
  eapply Forall_impl; [exact Hall|]. simpl. intros s Hs.
  assert (1 ≤ N / splits); [|unfold N in *; lia].
  apply Z.div_le_lower_bound; lia.
Qed.

Lemma nonempty_of_length {A : Type} (chunks : list (list A)) (sizes : list Z) :
  (λ c, Z.of_nat (length c)) <$> chunks = sizes →
  Forall (λ s, 1 ≤ s) sizes →
  Forall (λ c, c ≠ []) chunks.
Proof.
  intros <- Hall. rewrite Forall_fmap in Hall.
  eapply Forall_impl; [exact Hall|]. simpl. intros c Hc ->. simpl in Hc. lia.
Qed.

Lemma to_batches_partition {A : Type} (self : BatchGenerator) (df : list A) :
  1 ≤ batch_size self →
  ∃ chunks, to_batches self df = Returned chunks
    ∧ concat chunks = df
    ∧ (df ≠ [] → Forall (λ c, c ≠ []) chunks).
Proof.
  intros Hb.
  destruct (to_batches_cases self df Hb) as [_ [[_ Hone]|[Hsplits Hmany]]].
  - exists [df]. split; [done|]. split; [simpl; by rewrite app_nil_r|].
    intros Hne. by constructor.
  - destruct Hmany as (sizes & _ & Hres & _ & Hsum & Hall).
    assert (Forall (λ s, 0 ≤ s) sizes)
      by (eapply Forall_impl; [exact Hall|]; simpl; lia).
    eexists. split; [exact Hres|]. split.
    + rewrite concat_sections_from by (done || lia).
      rewrite Hsum, Nat2Z.id. simpl. by rewrite take_ge.
    + intros _. eapply nonempty_of_length; [|exact Hall].
      apply length_sections_from; (done || lia).
Qed.

Lemma batchify_nonempty_chunks {A : Type} (iterable : list A) (n : Z) chunks :
  1 ≤ n → batchify iterable n = Returned chunks → Forall (λ c, c ≠ []) chunks.
Proof.
  intros Hn Hb. apply Forall_lookup. intros i chunk Hi.
  destruct (batchify_chunk_length iterable n chunks i chunk Hn Hb Hi) as (_ & Hlt & Hlen).
  intros ->. simpl in Hlen. lia.
Qed.

(** ** The splitters: claims *)

(** C4.  For every table and every chunk size of at least one, the chunks
    of either splitter ([batchify] and [BatchGenerator.to_batches])
    concatenate, in order, back to the table, and no chunk is empty unless
    the table is. *)
Theorem splitters_partition {A : Type} (table : list A) (n : Z) :
  1 ≤ n →
  (∃ chunks, batchify table n = Returned chunks
     ∧ concat chunks = table
     ∧ (table ≠ [] → Forall (λ c, c ≠ []) chunks))
  ∧ (∃ chunks, to_batches {| batch_size := n |} table = Returned chunks
     ∧ concat chunks = table
     ∧ (table ≠ [] → Forall (λ c, c ≠ []) chunks)).
Proof.
  intros Hn. split.
  - destruct (batchify_concat table n Hn) as (chunks & Hb & Hcat).
    exists chunks. repeat split; try done.
    intros _. by eapply batchify_nonempty_chunks.
  - by apply to_batches_partition.
Qed.

Lemma splitters_partition_witness :
  1 ≤ 2
  ∧ (∃ chunks, batchify [10; 20; 30; 40; 50] 2 = Returned chunks
       ∧ concat chunks = [10; 20; 30; 40; 50]
       ∧ ([10; 20; 30; 40; 50] ≠ [] → Forall (λ c, c ≠ []) chunks))
  ∧ (∃ chunks, to_batches {| batch_size := 2 |} [10; 20; 30; 40; 50] = Returned chunks
       ∧ concat chunks = [10; 20; 30; 40; 50]
       ∧ ([10; 20; 30; 40; 50] ≠ [] → Forall (λ c, c ≠ []) chunks)).
Proof. split; [lia | apply (splitters_partition [10; 20; 30; 40; 50] 2); lia]. Defined.

(** C9.  On a list of [N >= 1] elements and with a chunk size [n >= 1],
    [batchify] yields [ceil(N/n)] chunks; chunk [i] starts at position
    [i * n]; every chunk but the last has exactly [n] elements and the last
    one has between 1 and [n]. *)
Theorem batchify_chunk_shape {A : Type} (iterable : list A) (n : Z) :
  let N := Z.of_nat (length iterable) in
  1 ≤ N → 1 ≤ n →
  ∃ chunks, batchify iterable n = Returned chunks
    ∧ Z.of_nat (length chunks) = (N + n - 1) / n
    ∧ (Z.of_nat (length chunks) - 1) * n < N ≤ Z.of_nat (length chunks) * n
    ∧ ∀ (i : nat) chunk, chunks !! i = Some chunk →
        chunk = take (Z.to_nat n) (drop (i * Z.to_nat n) iterable)
        ∧ ((S i < length chunks)%nat → Z.of_nat (length chunk) = n)
        ∧ (S i = length chunks → 1 ≤ Z.of_nat (length chunk) ≤ n).
Proof.
  intros N HN Hn.
  destruct (range_len_bounds N n) as (Hceil & Hlo & Hhi); [lia..|].
  eexists. split; [by apply batchify_closed_form|].
  rewrite length_fmap, length_seq. fold N.
  split; [done|]. split; [done|].
  intros i chunk Hi.
  pose proof (lookup_lt_Some _ _ _ Hi) as Hlt.
  rewrite length_fmap, length_seq in Hlt. fold N in Hlt.
  destruct (batchify_chunk_length iterable n _ i chunk Hn
              (batchify_closed_form iterable n Hn) Hi) as (Hchunk & Hstart & Hlen).
  fold N in Hstart, Hlen.
  split; [done|]. split; intros Hpos; nia.
Qed.

Lemma batchify_chunk_shape_witness :
  1 ≤ Z.of_nat (length [1; 2; 3; 4; 5; 6; 7]) ∧ 1 ≤ 3
  ∧ ∃ chunks, batchify [1; 2; 3; 4; 5; 6; 7] 3 = Returned chunks
    ∧ Z.of_nat (length chunks) = (Z.of_nat (length [1; 2; 3; 4; 5; 6; 7]) + 3 - 1) / 3
    ∧ (Z.of_nat (length chunks) - 1) * 3 < Z.of_nat (length [1; 2; 3; 4; 5; 6; 7])
        ≤ Z.of_nat (length chunks) * 3
    ∧ ∀ (i : nat) chunk, chunks !! i = Some chunk →
        chunk = take (Z.to_nat 3) (drop (i * Z.to_nat 3) [1; 2; 3; 4; 5; 6; 7])
        ∧ ((S i < length chunks)%nat → Z.of_nat (length chunk) = 3)
        ∧ (S i = length chunks → 1 ≤ Z.of_nat (length chunk) ≤ 3).
Proof.
  split; [simpl; lia|]. split; [lia|].
  apply (batchify_chunk_shape [1; 2; 3; 4; 5; 6; 7] 3); simpl; lia.
Defined.

(** C10.  On a table with no rows [to_batches] yields exactly one chunk,
    the empty table itself, whatever the (non-zero) batch size; and on no
    table does it yield zero chunks. *)
Theorem to_batches_empty_table {A : Type} (self : BatchGenerator) :
  batch_size self ≠ 0 →
  to_batches self (@nil A) = Returned [[]]
  ∧ ∀ df : list A, ∃ chunks, to_batches self df = Returned chunks ∧ chunks ≠ [].
Proof.
  intros Hb. unfold to_batches, splits_num, py_round_div. split.
  - simpl. destruct (Z.eqb_spec (batch_size self) 0); [done|]. simpl.
    unfold round_half_even. rewrite Zdiv_0_l, Zmod_0_l. simpl.
    by destruct (Z.abs (batch_size self)).
  - intros df. destruct (Z.eqb_spec (batch_size self) 0); [done|]. simpl.
    destruct (Z.leb_spec (round_half_even (Z.of_nat (length df)) (batch_size self)) 1)
      as [Hle|Hgt]; [by exists [df]|].
    destruct (array_split_sections df
                (round_half_even (Z.of_nat (length df)) (batch_size self)))
      as (sizes & _ & Hres & Hlen & _); [lia|].
    exists (sections_from df 0 sizes). split; [done|].
    destruct sizes; [simpl in Hlen; lia|done].
Qed.

Lemma to_batches_empty_table_witness :
  batch_size df_batcher ≠ 0
  ∧ to_batches df_batcher (@nil nat) = Returned [[]]
  ∧ ∀ df : list nat, ∃ chunks, to_batches df_batcher df = Returned chunks ∧ chunks ≠ [].
Proof. split; [done | apply (to_batches_empty_table df_batcher); done]. Defined.

(** C7 (as stated) fails on the empty table: with the batch size 300 of
    the notebook the computed chunk count is 0, and the single chunk that
    is yielded is empty. *)
Lemma to_batches_small_table_empty_chunk :
  splits_num df_batcher (Z.of_nat (length (@nil nat))) = Returned 0
  ∧ ∃ chunks, to_batches df_batcher (@nil nat) = Returned chunks
      ∧ ¬ Forall (λ c, c ≠ []) chunks.
Proof.
  split; [reflexivity|]. exists [[]]. split; [reflexivity|].
  intros Hall. by inversion Hall.
Qed.

(** C7 (amended).  Whenever the computed chunk count is 0 or 1 (the table
    has fewer than one and a half batches of rows, e.g. 10 rows for a
    batch size of 300), [to_batches] raises nothing and yields the whole
    table as its single chunk: every element is yielded once, in order, and
    the chunk is empty only if the table is. *)
Theorem to_batches_small_table {A : Type} (self : BatchGenerator) (df : list A) (splits : Z) :
  1 ≤ batch_size self →
  splits_num self (Z.of_nat (length df)) = Returned splits →
  splits ≤ 1 →
  2 * Z.of_nat (length df) < 3 * batch_size self
  ∧ ∃ chunks, to_batches self df = Returned chunks
      ∧ chunks = [df]
      ∧ concat chunks = df
      ∧ (df ≠ [] → Forall (λ c, c ≠ []) chunks).
Proof.
  intros Hb Hsplits Hsmall.
  destruct (to_batches_cases self df Hb) as [Hnum Hcases].
  rewrite Hsplits in Hnum. injection Hnum as ->.
  split; [apply round_half_even_small; (done || lia)|].
  destruct Hcases as [[_ Hone]|[Hmany _]]; [|lia].
  exists [df]. repeat split; try done.
  - simpl. by rewrite app_nil_r.
  - intros Hne. by constructor.
Qed.

Lemma to_batches_small_table_witness :
  1 ≤ batch_size df_batcher
  ∧ splits_num df_batcher (Z.of_nat (length [1; 2; 3; 4; 5; 6; 7; 8; 9; 10])) = Returned 0
  ∧ 0 ≤ 1
  ∧ 2 * Z.of_nat (length [1; 2; 3; 4; 5; 6; 7; 8; 9; 10]) < 3 * batch_size df_batcher
  ∧ ∃ chunks, to_batches df_batcher [1; 2; 3; 4; 5; 6; 7; 8; 9; 10] = Returned chunks
      ∧ chunks = [[1; 2; 3; 4; 5; 6; 7; 8; 9; 10]]
      ∧ concat chunks = [1; 2; 3; 4; 5; 6; 7; 8; 9; 10]
      ∧ ([1; 2; 3; 4; 5; 6; 7; 8; 9; 10] ≠ [] → Forall (λ c, c ≠ []) chunks).
Proof.
  split; [simpl; lia|]. split; [reflexivity|]. split; [lia|].
  apply (to_batches_small_table df_batcher [1; 2; 3; 4; 5; 6; 7; 8; 9; 10] 0);
    [simpl; lia | reflexivity | lia].
Defined.

(** C3 (as stated) fails: a table of 25000 rows is split by the batcher of
    the notebook (batch size 300) into 83 chunks, not 84, and the last
    chunk is no larger than the others: the first of them has 302 rows and
    the last 301. *)
Lemma to_batches_25000_rows_not_84 :
  ∃ chunks, to_batches df_batcher (replicate (Z.to_nat 25000) ()) = Returned chunks
    ∧ length chunks = 83%nat
    ∧ length chunks ≠ 84%nat
    ∧ length <$> head chunks = Some 302%nat
    ∧ length <$> last chunks = Some 301%nat.
Proof.
  eexists. split; [vm_compute; reflexivity|].
  split; [vm_compute; reflexivity|].
  split; [vm_compute; intros H; discriminate H|].
  split; vm_compute; reflexivity.
Qed.

(** C3 (amended).  For a table of 25000 rows and the batch size 300,
    [to_batches] yields exactly 83 chunks ([round(25000/300) = 83]); the
    remainder of 17 rows is spread one row each over the first 17 chunks,
    which have 302 rows, the other 66 having 301; no chunk is empty and
    the chunks concatenate back to the table. *)
Theorem to_batches_25000_rows {A : Type} (df : list A) :
  Z.of_nat (length df) = 25000 →
  ∃ chunks, to_batches df_batcher df = Returned chunks
    ∧ length chunks = 83%nat
    ∧ (λ c, Z.of_nat (length c)) <$> chunks = replicate 17 302 ++ replicate 66 301
    ∧ Forall (λ c, c ≠ []) chunks
    ∧ concat chunks = df.
Proof.
  intros HN.
  destruct (to_batches_cases df_batcher df) as [_ Hcases]; [simpl; lia|].
  destruct (to_batches_partition df_batcher df) as (chunks & Hres & Hcat & Hne); [simpl; lia|].
  exists chunks. simpl in Hcases. rewrite HN in Hcases.
  change (round_half_even 25000 300) with 83 in Hcases.
  destruct Hcases as [[Hle _]|[_ (sizes & Hsz & Hres' & Hlen & Hsum & Hall)]]; [lia|].
  rewrite Hres in Hres'. injection Hres' as ->.
  assert (sizes = replicate 17 302 ++ replicate 66 301) as Hsizes.
  { vm_compute in Hsz. by injection Hsz as <-. }
  assert ((λ c, Z.of_nat (length c)) <$> sections_from df 0 sizes = sizes) as Hlens.
  { apply length_sections_from; [|lia..].
    eapply Forall_impl; [exact Hall|]. simpl. lia. }
  split; [done|]. split.
  { rewrite <- (length_fmap (λ c, Z.of_nat (length c))), Hlens, Hsizes. done. }
  split; [by rewrite Hlens|]. split; [|done].
  apply Hne. intros ->. simpl in HN. lia.
Qed.

Lemma to_batches_25000_rows_witness :
  Z.of_nat (length (replicate (Z.to_nat 25000) ())) = 25000
  ∧ ∃ chunks, to_batches df_batcher (replicate (Z.to_nat 25000) ()) = Returned chunks
    ∧ length chunks = 83%nat
    ∧ (λ c, Z.of_nat (length c)) <$> chunks = replicate 17 302 ++ replicate 66 301
    ∧ Forall (λ c, c ≠ []) chunks
    ∧ concat chunks = replicate (Z.to_nat 25000) ().
Proof.
  split; [vm_compute; reflexivity|].
  apply (to_batches_25000_rows (replicate (Z.to_nat 25000) ())).
  vm_compute; reflexivity.
Defined.

(** ** The embedding pipeline *)

Example embed_months_second_request_first :
  (embed_corpus char_codes steady_endpoint [1%nat; 0%nat] months 1 2 8191
     {| remote := 0%nat; trace := [] |}).1
  = Returned [1513; 1642].
Proof. vm_compute. reflexivity. Qed.

Section PipelineProperties.

Context (encode : string → list token) {vector service : Type}.
Context (create : service → list (list token) → outcome (list (datum vector)) * service).

Lemma get_embeddings_spec (input : list (list token)) (w : world service) :
  get_embeddings create input w
  = (response_of create (remote w) input,
     {| remote := (create (remote w) input).2;
        trace := trace w ++ [EvRequest input] |}).
Proof.
  unfold get_embeddings, response_of, io_bind, emit, io_ret. simpl.
  by destruct (create (remote w) input) as [[response|e] σ].
Qed.

Lemma submit_all_spec (batches : list (list (list token)))
    (futures : list (future vector)) (w : world service) :
  submit_all futures batches w
  = (Returned (futures ++ (pending <$> batches)),
     {| remote := remote w;
        trace := trace w ++ imap (λ i b, EvSubmit (length futures + i) b) batches |}).
Proof.
  revert futures w. induction batches as [|b batches IH]; intros futures w.
  - simpl. rewrite !app_nil_r. by destruct w.
  - cbn [submit_all]. unfold io_bind at 1. unfold submit, io_bind, emit, io_ret.
    rewrite IH. cbn [remote trace fmap list_fmap imap].
    rewrite <- !app_assoc, length_app, Nat.add_0_r. simpl.
    do 4 f_equal. apply imap_ext. intros i x _. simpl. f_equal. lia.
Qed.

Lemma settled_more (added more : list event) (fut : future vector) :
  settled create added fut → settled create (added ++ more) fut.
Proof.
  unfold settled. destruct (state fut); [|done].
  intros [Hr Hin]. split; [done|]. apply elem_of_app. by left.
Qed.

Lemma complete_ok (base added : list event) (batch_size : Z) (i : nat)
    (futs : list (future vector)) (w : world service) :
  trace w = base ++ added →
  Forall (settled create added) futs →
  loop_ok create base added futs [i] (complete create batch_size i futs w).
Proof.
  intros Htrace Hsettled. unfold loop_ok, complete.
  destruct (futs !! i) as [[input [r|]]|] eqn:Hi.
  - exists futs, w, []. rewrite !app_nil_r. repeat split; try done.
    intros j Hj _. apply list_elem_of_singleton in Hj as ->. eauto.
  - rewrite get_embeddings_spec. unfold io_bind, emit, io_ret. simpl.
    eexists _, _, [EvRequest input; EvProgress batch_size].
    split; [done|]. simpl. split; [by rewrite Htrace, <- !app_assoc|].
    split; [|split; [|split]].
    + rewrite list_fmap_insert. simpl. apply list_insert_id.
      by rewrite list_lookup_fmap, Hi.
    + apply Forall_insert.
      * eapply Forall_impl; [exact Hsettled|]. intros fut. apply settled_more.
      * unfold settled. simpl. split; [eauto|].
        apply elem_of_app. right. by left.
    + intros j fut Hj Hdone. rewrite list_lookup_insert_ne; [done|].
      intros ->. rewrite Hi in Hj. injection Hj as <-. by destruct Hdone.
    + intros j Hj Hlt. apply list_elem_of_singleton in Hj as ->.
      eexists. split; [by apply list_lookup_insert_eq|]. simpl. eauto.
  - exists futs, w, []. rewrite !app_nil_r. repeat split; try done.
    intros j Hj Hlt. apply list_elem_of_singleton in Hj as ->.
    apply lookup_ge_None in Hi. lia.
Qed.

Lemma complete_in_order_ok (base : list event) (batch_size : Z) (order : list nat) :
  ∀ (added : list event) (futs : list (future vector)) (w : world service),
    trace w = base ++ added →
    Forall (settled create added) futs →
    loop_ok create base added futs order
      (complete_in_order create batch_size order futs w).
Proof.
  induction order as [|i order IH]; intros added futs w Htrace Hsettled.
  - exists futs, w, []. rewrite !app_nil_r. repeat split; try done.
    intros j Hj. by apply elem_of_nil in Hj.
  - cbn [complete_in_order]. unfold io_bind.
    destruct (complete_ok base added batch_size i futs w Htrace Hsettled)
      as (futs1 & w1 & more1 & -> & Htrace1 & Hargs1 & Hsettled1 & Hkeep1 & Hdone1).
    destruct (IH (added ++ more1) futs1 w1 Htrace1 Hsettled1)
      as (futs2 & w2 & more2 & -> & Htrace2 & Hargs2 & Hsettled2 & Hkeep2 & Hdone2).
    assert (length futs1 = length futs) as Hlen1
      by (rewrite <- (length_fmap fn_arg futs1), Hargs1; apply length_fmap).
    exists futs2, w2, (more1 ++ more2).
    split; [done|]. split; [by rewrite Htrace2, <- !app_assoc|].
    split; [congruence|]. split; [by rewrite app_assoc|]. split.
    + intros j fut Hj Hdone. apply Hkeep2; [|done]. by apply Hkeep1.
    + intros j Hj Hlt. apply elem_of_cons in Hj as [->|Hj].
      * destruct (Hdone1 i) as (fut & Hfut & Hdone); [by left|done|].
        exists fut. split; [|done]. by apply Hkeep2.
      * apply Hdone2; [done|lia].
Qed.

(** When the loop over [as_completed] ends, every future is finished,
    whatever the order [sched] in which the pool completed them. *)
Lemma as_completed_ok (base added : list event) (sched : list nat) (batch_size : Z)
    (futs : list (future vector)) (w : world service) :
  trace w = base ++ added →
  Forall (settled create added) futs →
  ∃ futs' w' more, as_completed create sched batch_size futs w = (Returned futs', w')
    ∧ trace w' = base ++ added ++ more
    ∧ fn_arg <$> futs' = fn_arg <$> futs
    ∧ Forall (settled create (added ++ more)) futs'
    ∧ Forall (λ fut, is_Some (state fut)) futs'.
Proof.
  intros Htrace Hsettled. unfold as_completed.
  destruct (complete_in_order_ok base batch_size (sched ++ seq 0 (length futs))
              added futs w Htrace Hsettled)
    as (futs' & w' & more & Hres & Htrace' & Hargs & Hsettled' & _ & Hdone).
  exists futs', w', more. repeat split; try done.
  assert (length futs' = length futs) as Hlen
    by (rewrite <- (length_fmap fn_arg futs'), Hargs; apply length_fmap).
  apply Forall_lookup. intros j fut Hj.
  pose proof (lookup_lt_Some _ _ _ Hj) as Hlt.
  destruct (Hdone j) as (fut' & Hfut' & Hsome); [|lia|congruence].
  apply elem_of_app. right. apply elem_of_seq. lia.
Qed.

(** The gathering loop on finished futures: it leaves the world alone; it
    returns the data of the futures in submission order … *)
Lemma gather_returned (data_of : list (list token) → list vector)
    (futs : list (future vector)) (embeddings : list vector) (w : world service) :
  Forall (λ fut, state fut = Some (Returned (data_of (fn_arg fut)))) futs →
  gather create futs embeddings w
  = (Returned (embeddings ++ concat (data_of <$> (fn_arg <$> futs))), w).
Proof.
  intros Hall. revert embeddings.
  induction Hall as [|fut futs Hfut _ IH]; intros embeddings.
  - simpl. by rewrite app_nil_r.
  - cbn [gather]. unfold io_bind, result. rewrite Hfut. unfold lift.
    rewrite IH. simpl. by rewrite <- app_assoc.
Qed.

(** … and it re-raises the exception of the first future, in submission
    order, that holds one. *)
Lemma gather_raised (futs : list (future vector)) :
  ∀ (embeddings : list vector) (w : world service) (k : nat) (fut : future vector) (e : exn),
    Forall (λ fut, is_Some (state fut)) futs →
    futs !! k = Some fut → state fut = Some (Raised e) →
    ∃ j fut' e', (j ≤ k)%nat ∧ futs !! j = Some fut' ∧ state fut' = Some (Raised e')
      ∧ (∀ i fut'', (i < j)%nat → futs !! i = Some fut'' →
           ∃ data, state fut'' = Some (Returned data))
      ∧ gather create futs embeddings w = (Raised e', w).
Proof.
  induction futs as [|fut0 futs IH]; intros embeddings w k fut e Hdone Hk Hfut; [done|].
  apply Forall_cons in Hdone as [[r0 Hr0] Hdone].
  cbn [gather]. unfold io_bind, result. rewrite Hr0. unfold lift.
  destruct r0 as [data0|e0].
  - destruct k as [|k]; [simpl in Hk; congruence|]. simpl in Hk.
    destruct (IH (embeddings ++ data0) w k fut e Hdone Hk Hfut)
      as (j & fut' & e' & Hle & Hj & He' & Hbefore & Hres).
    exists (S j), fut', e'. split; [lia|]. split; [done|]. split; [done|].
    split; [|done].
    intros [|i] fut'' Hi Hlook; simpl in Hlook.
    + injection Hlook as <-. eauto.
    + apply (Hbefore i); [lia|done].
  - exists 0%nat, fut0, e0. split; [lia|]. split; [done|]. split; [done|].
    split; [|done].
    intros i fut'' Hi. lia.
Qed.

(** The run of [embed_corpus] up to the gathering loop, when the worker
    count and the batch size are accepted: the statistics are printed,
    then every batch is submitted, then the pool finishes every future. *)
Lemma embed_corpus_run (sched : list nat) (corpus : list string)
    (batch_size num_workers max_context_len : Z) (w : world service)
    (batches : list (list (list token))) :
  1 ≤ num_workers →
  batchify (encoded_corpus encode corpus max_context_len) batch_size = Returned batches →
  let encoded := encoded_corpus encode corpus max_context_len in
  let printed := EvPrint (Z.of_nat (length encoded)) (num_tokens encoded)
                   (cost_to_embed_tokens (num_tokens encoded)) in
  let submitted := imap (λ i b, EvSubmit i b) batches in
  ∃ futs w1 more,
    embed_corpus encode create sched corpus batch_size num_workers max_context_len w
    = gather create futs [] w1
    ∧ trace w1 = trace w ++ (printed :: submitted) ++ more
    ∧ fn_arg <$> futs = batches
    ∧ Forall (settled create ((printed :: submitted) ++ more)) futs
    ∧ Forall (λ fut, is_Some (state fut)) futs.
Proof.
  intros Hworkers Hbatches encoded printed submitted.
  unfold embed_corpus. rewrite Hbatches. fold encoded.
  unfold io_bind at 1. unfold emit at 1. fold printed.
  unfold io_bind at 1. unfold thread_pool_executor.
  destruct (Z.leb_spec num_workers 0); [lia|]. unfold io_ret at 1.
  unfold io_bind at 1. unfold lift at 1.
  unfold io_bind at 1. rewrite submit_all_spec. cbn [remote trace app length Nat.add].
  unfold io_bind at 1.
  match goal with |- context [as_completed create sched batch_size ?fs ?w0] =>
    destruct (as_completed_ok (trace w) (printed :: submitted) sched batch_size fs w0)
      as (futs & w1 & more & Hres & Htrace & Hargs & Hsettled & Hdone)
  end.
  { simpl. by rewrite <- app_assoc. }
  { apply Forall_fmap, Forall_true. intros b. by unfold settled. }
  rewrite Hres. exists futs, w1, more. repeat split; try done.
  rewrite Hargs, <- list_fmap_compose. apply list_fmap_id.
Qed.

(** One call of [get_embeddings] is one request: its outcome is the answer
    to that request, whether data or an error. *)
Lemma get_embeddings_single_request (input : list (list token)) (w : world service) :
  (get_embeddings create input w).1 = response_of create (remote w) input
  ∧ requests_sent (trace (get_embeddings create input w).2)
    = requests_sent (trace w) ++ [input].
Proof.
  rewrite get_embeddings_spec. split; [done|]. simpl.
  unfold requests_sent. by rewrite omap_app.
Qed.

Lemma gather_world (futs : list (future vector)) :
  ∀ (embeddings : list vector) (w : world service),
    Forall (λ fut, is_Some (state fut)) futs →
    ∃ r, gather create futs embeddings w = (r, w).
Proof.
  induction futs as [|fut futs IH]; intros embeddings w Hdone; [by eexists|].
  apply Forall_cons in Hdone as [[r0 Hr0] Hdone].
  cbn [gather]. unfold io_bind, result. rewrite Hr0. unfold lift.
  destruct r0 as [data0|e0]; [by apply IH | by eexists].
Qed.

Lemma concat_fmap_fmap {B C : Type} (f : B → C) (ls : list (list B)) :
  concat ((λ l : list B, f <$> l) <$> ls) = f <$> concat ls.
Proof.
  induction ls as [|l ls IH]; [done|].
  rewrite fmap_cons. cbn [concat]. by rewrite fmap_app, IH.
Qed.

End PipelineProperties.

(** ** The embedding pipeline: claims *)

(** C1.  When the endpoint answers every request with the vectors of the
    requested token sequences, in request order, [embed_corpus] returns,
    for every corpus, batch size >= 1, worker count >= 1 and maximum token
    length, a list as long as the corpus whose i-th vector is the embedding
    of the (truncated) i-th text, in whatever order [sched] the pool
    completes the batch requests. *)
Theorem embed_corpus_order_preserved {vector service : Type}
    (encode : string → list token)
    (create : service → list (list token) → outcome (list (datum vector)) * service)
    (embed_model : list token → vector)
    (sched : list nat) (corpus : list string)
    (batch_size num_workers max_context_len : Z) (w : world service) :
  (∀ σ input,
     (create σ input).1 = Returned ((λ t, {| embedding := embed_model t |}) <$> input)) →
  1 ≤ batch_size → 1 ≤ num_workers →
  ∃ embeddings w',
    embed_corpus encode create sched corpus batch_size num_workers max_context_len w
    = (Returned embeddings, w')
    ∧ length embeddings = length corpus
    ∧ ∀ (i : nat) text, corpus !! i = Some text →
        embeddings !! i = Some (embed_model (truncate max_context_len (encode text))).
Proof.
  intros Hcontract Hbatch Hworkers.
  destruct (batchify_concat (encoded_corpus encode corpus max_context_len) batch_size Hbatch)
    as (batches & Hbatches & Hcat).
  destruct (embed_corpus_run encode create sched corpus batch_size num_workers
              max_context_len w batches Hworkers Hbatches)
    as (futs & w1 & more & Hrun & _ & Hargs & Hsettled & Hdone).
  rewrite Hrun.
  rewrite (gather_returned create (λ b : list (list token), embed_model <$> b)).
  - eexists _, w1. split; [done|]. simpl.
    rewrite Hargs, concat_fmap_fmap, Hcat. unfold encoded_corpus, encode_batch.
    split; [by rewrite !length_fmap|].
    intros i text Hi. by rewrite !list_lookup_fmap, Hi.
  - apply Forall_lookup. intros j fut Hj.
    pose proof (proj1 (Forall_lookup _ _) Hsettled j fut Hj) as Hs.
    pose proof (proj1 (Forall_lookup _ _) Hdone j fut Hj) as [r Hr].
    unfold settled in Hs. rewrite Hr in Hs. destruct Hs as [[σ ->] _].
    rewrite Hr. unfold response_of. rewrite Hcontract.
    by rewrite <- list_fmap_compose.
Qed.

Lemma embed_corpus_order_preserved_witness :
  (∀ σ input,
     (steady_endpoint σ input).1 = Returned ((λ t, {| embedding := sum_list_Z t |}) <$> input))
  ∧ 1 ≤ 1 ∧ 1 ≤ 2
  ∧ ∃ embeddings w',
      embed_corpus char_codes steady_endpoint [1%nat; 0%nat] months 1 2 8191
        {| remote := 0%nat; trace := [] |}
      = (Returned embeddings, w')
      ∧ length embeddings = length months
      ∧ ∀ (i : nat) text, months !! i = Some text →
          embeddings !! i = Some (sum_list_Z (truncate 8191 (char_codes text))).
Proof.
  split; [intros σ input; reflexivity|]. split; [lia|]. split; [lia|].
  apply (embed_corpus_order_preserved char_codes steady_endpoint sum_list_Z
           [1%nat; 0%nat] months 1 2 8191 {| remote := 0%nat; trace := [] |});
    [intros σ input; reflexivity | lia | lia].
Defined.

(** C5.  For every text of the corpus and every maximum length [L >= 0]
    the token sequence kept for it is the tokenization of the text cut
    after [L] tokens: it has at most [L] tokens, and it is the whole
    tokenization when that has at most [L] tokens. *)
Theorem truncation_bound (encode : string → list token) (corpus : list string)
    (max_context_len : Z) (i : nat) (text : string) :
  0 ≤ max_context_len →
  corpus !! i = Some text →
  ∃ toks, encoded_corpus encode corpus max_context_len !! i = Some toks
    ∧ toks = take (Z.to_nat max_context_len) (encode text)
    ∧ Z.of_nat (length toks) ≤ max_context_len
    ∧ (Z.of_nat (length (encode text)) ≤ max_context_len → toks = encode text).
Proof.
  intros HL Hi. unfold encoded_corpus, encode_batch, truncate.
  rewrite !list_lookup_fmap, Hi. simpl.
  eexists. split; [done|]. rewrite py_slice_prefix by done.
  split; [done|]. split.
  - rewrite length_take. lia.
  - intros Hshort. apply take_ge. lia.
Qed.

Lemma truncation_bound_witness :
  0 ≤ 5 ∧ months !! 1%nat = Some "August is a month."%string
  ∧ ∃ toks, encoded_corpus char_codes months 5 !! 1%nat = Some toks
      ∧ toks = take (Z.to_nat 5) (char_codes "August is a month.")
      ∧ Z.of_nat (length toks) ≤ 5
      ∧ (Z.of_nat (length (char_codes "August is a month.")) ≤ 5
         → toks = char_codes "August is a month.").
Proof.
  split; [lia|]. split; [reflexivity|].
  apply (truncation_bound char_codes months 5 1 "August is a month.");
    [lia | reflexivity].
Defined.

(** C6.  If the request for one of the batches fails for good, that is
    whenever it is made, then [embed_corpus] raises and returns no list at
    all, not even the vectors of the batches that succeeded.  The exception
    raised is the failure of a batch request, the first failed one in
    submission order; it is the failure of that batch when the requests for
    the batches before it succeed. *)
Theorem embed_corpus_failure_aborts {vector service : Type}
    (encode : string → list token)
    (create : service → list (list token) → outcome (list (datum vector)) * service)
    (sched : list nat) (corpus : list string)
    (batch_size num_workers max_context_len : Z) (w : world service)
    (batches : list (list (list token))) (k : nat) (b : list (list token)) (e : exn) :
  1 ≤ num_workers →
  batchify (encoded_corpus encode corpus max_context_len) batch_size = Returned batches →
  batches !! k = Some b →
  (∀ σ, (create σ b).1 = Raised e) →
  ∃ e' w',
    embed_corpus encode create sched corpus batch_size num_workers max_context_len w
    = (Raised e', w')
    ∧ (∃ (j : nat) b' σ, (j ≤ k)%nat ∧ batches !! j = Some b' ∧ (create σ b').1 = Raised e')
    ∧ ((∀ (i : nat) b' σ, (i < k)%nat → batches !! i = Some b' →
          ∃ response, (create σ b').1 = Returned response)
       → e' = e).
Proof.
  intros Hworkers Hbatches Hk Hfail.
  destruct (embed_corpus_run encode create sched corpus batch_size num_workers
              max_context_len w batches Hworkers Hbatches)
    as (futs & w1 & more & Hrun & _ & Hargs & Hsettled & Hdone).
  rewrite Hrun.
  assert (∀ (j : nat) fut r, futs !! j = Some fut → state fut = Some r →
            batches !! j = Some (fn_arg fut)
            ∧ ∃ σ, r = response_of create σ (fn_arg fut)) as Hfut.
  { intros j fut r Hj Hr. split.
    - by rewrite <- Hargs, list_lookup_fmap, Hj.
    - pose proof (proj1 (Forall_lookup _ _) Hsettled j fut Hj) as Hs.
      unfold settled in Hs. rewrite Hr in Hs. by destruct Hs. }
  assert (∃ fut, futs !! k = Some fut ∧ state fut = Some (Raised e)) as (fut & Hfk & Hstate).
  { rewrite <- Hargs, list_lookup_fmap in Hk.
    destruct (futs !! k) as [fut|] eqn:Hfk; [|done]. simpl in Hk. injection Hk as Hb.
    exists fut. split; [done|].
    pose proof (proj1 (Forall_lookup _ _) Hdone k fut Hfk) as [r Hr].
    destruct (Hfut k fut r Hfk Hr) as [_ [σ ->]].
    rewrite Hr. unfold response_of. by rewrite Hb, Hfail. }
  destruct (gather_raised create futs [] w1 k fut e Hdone Hfk Hstate)
    as (j & fut' & e' & Hle & Hj & He' & _ & Hres).
  destruct (Hfut j fut' _ Hj He') as [Hbj [σ Hσ]].
  assert ((create σ (fn_arg fut')).1 = Raised e') as Hcall.
  { unfold response_of in Hσ. destruct ((create σ (fn_arg fut')).1); congruence. }
  exists e', w1. split; [done|]. split; [by eauto 6|].
  intros Hbefore. destruct (decide (j = k)) as [->|Hne].
  - rewrite Hk in Hbj. injection Hbj as Hb. rewrite <- Hb, Hfail in Hcall. congruence.
  - destruct (Hbefore j (fn_arg fut') σ) as [response Hok]; [lia|done|congruence].
Qed.

Lemma embed_corpus_failure_aborts_witness :
  1 ≤ 2
  ∧ batchify (encoded_corpus char_codes blank_second 8191) 1
    = Returned [[char_codes "April is a month."]; [[]]]
  ∧ [[char_codes "April is a month."]; [[]]] !! 1%nat = Some [[]]
  ∧ (∀ σ, (strict_endpoint σ [[]]).1 = Raised (ServiceError InvalidRequestError))
  ∧ ∃ e' w',
      embed_corpus char_codes strict_endpoint [1%nat; 0%nat]
        blank_second 1 2 8191
        {| remote := 0%nat; trace := [] |}
      = (Raised e', w')
      ∧ (∃ (j : nat) b' σ, (j ≤ 1)%nat
           ∧ [[char_codes "April is a month."]; [[]]] !! j = Some b'
           ∧ (strict_endpoint σ b').1 = Raised e')
      ∧ ((∀ (i : nat) b' σ, (i < 1)%nat →
            [[char_codes "April is a month."]; [[]]] !! i = Some b' →
            ∃ response, (strict_endpoint σ b').1 = Returned response)
         → e' = ServiceError InvalidRequestError).
Proof.
  split; [lia|]. split; [vm_compute; reflexivity|]. split; [reflexivity|].
  split; [intros σ; reflexivity|].
  apply (embed_corpus_failure_aborts char_codes strict_endpoint [1%nat; 0%nat]
           blank_second 1 2 8191
           {| remote := 0%nat; trace := [] |}
           [[char_codes "April is a month."]; [[]]] 1 [[]]
           (ServiceError InvalidRequestError));
    [lia | vm_compute; reflexivity | reflexivity | intros σ; reflexivity].
Defined.

(** C8.  In every run [embed_corpus] first prints the number of articles,
    the token count [n], which is the sum over the whole corpus of the
    lengths of the truncated token sequences (of [min(L, len)] for a
    maximum length [L >= 0]), and the cost [n / 1000 * 0.0004] derived
    from it: whatever else the run does, every submission of a batch and
    every request to the endpoint comes after the print in the trace.  The
    printed values decide nothing: with an accepted batch size and worker
    count every batch is then submitted and requested. *)
Theorem cost_estimate_precedes_requests {vector service : Type}
    (encode : string → list token)
    (create : service → list (list token) → outcome (list (datum vector)) * service)
    (sched : list nat) (corpus : list string)
    (batch_size num_workers max_context_len : Z) (w : world service) :
  let n := foldr Z.add 0
             ((λ text, Z.of_nat (length (truncate max_context_len (encode text))))
                <$> corpus) in
  ∃ r w' rest,
    embed_corpus encode create sched corpus batch_size num_workers max_context_len w
    = (r, w')
    ∧ trace w' = trace w
                 ++ EvPrint (Z.of_nat (length corpus)) n
                      (Qmult (Qdiv (inject_Z n) (inject_Z 1000)) (Qmake 4 10000))
                 :: rest
    ∧ (0 ≤ max_context_len →
       n = foldr Z.add 0
             ((λ text, Z.min max_context_len (Z.of_nat (length (encode text))))
                <$> corpus))
    ∧ (1 ≤ batch_size → 1 ≤ num_workers →
       ∃ batches,
         batchify (encoded_corpus encode corpus max_context_len) batch_size
         = Returned batches
         ∧ ∀ (k : nat) b, batches !! k = Some b →
             EvSubmit k b ∈ rest ∧ EvRequest b ∈ rest).
Proof.
  intros n.
  set (encoded := encoded_corpus encode corpus max_context_len).
  assert (length encoded = length corpus) as Hlen
    by (unfold encoded, encoded_corpus, encode_batch; by rewrite !length_fmap).
  assert (num_tokens encoded = n) as Hn.
  { unfold num_tokens, encoded, encoded_corpus, encode_batch, n.
    by rewrite <- !list_fmap_compose. }
  assert (cost_to_embed_tokens (num_tokens encoded)
          = Qmult (Qdiv (inject_Z n) (inject_Z 1000)) (Qmake 4 10000)) as Hcost
    by (by rewrite Hn).
  assert (0 ≤ max_context_len →
          n = foldr Z.add 0
                ((λ text, Z.min max_context_len (Z.of_nat (length (encode text))))
                   <$> corpus)) as Hmin.
  { intros HL. unfold n. f_equal. apply list_fmap_ext. intros i text _.
    unfold truncate. rewrite py_slice_prefix by done. rewrite length_take. lia. }
  destruct (Z.leb_spec num_workers 0) as [Hnone|Hworkers].
  { eexists _, _, []. split; [|split; [|split; [done|lia]]].
    - unfold embed_corpus, io_bind, emit, thread_pool_executor, lift.
      fold encoded. destruct (Z.leb_spec num_workers 0); [done|lia].
    - simpl. by rewrite Hlen, Hcost, Hn. }
  destruct (batchify encoded batch_size) as [batches|e] eqn:Hbatches.
  2:{ eexists _, _, []. split; [|split; [|split; [done|]]].
      - unfold embed_corpus, io_bind, emit, thread_pool_executor, lift, io_ret.
        fold encoded. rewrite Hbatches.
        destruct (Z.leb_spec num_workers 0); [lia|done].
      - simpl. by rewrite Hlen, Hcost, Hn.
      - intros Hbatch _.
        destruct (batchify_concat encoded batch_size Hbatch) as (bs & Hbs & _).
        congruence. }
  destruct (embed_corpus_run encode create sched corpus batch_size num_workers
              max_context_len w batches ltac:(lia) Hbatches)
    as (futs & w1 & more & Hrun & Htrace & Hargs & Hsettled & Hdone).
  destruct (gather_world create futs [] w1 Hdone) as [r Hr].
  exists r, w1, (imap (λ i b, EvSubmit i b) batches ++ more).
  split; [congruence|]. split.
  { rewrite Htrace. fold encoded. by rewrite Hlen, Hcost, Hn. }
  split; [done|].
  intros _ _. exists batches. split; [done|].
  intros k b Hk. split.
  - apply elem_of_app. left. by apply (elem_of_lookup_imap_2 (λ i b, EvSubmit i b)).
  - rewrite <- Hargs, list_lookup_fmap in Hk.
    destruct (futs !! k) as [fut|] eqn:Hfk; [|done]. simpl in Hk. injection Hk as <-.
    pose proof (proj1 (Forall_lookup _ _) Hsettled k fut Hfk) as Hs.
    pose proof (proj1 (Forall_lookup _ _) Hdone k fut Hfk) as [r' Hr'].
    unfold settled in Hs. rewrite Hr' in Hs. destruct Hs as [_ Hin].
    simpl in Hin. apply elem_of_cons in Hin as [Heq|Hin]; [discriminate Heq|done].
Qed.

Lemma cost_estimate_precedes_requests_witness :
  ∃ r w' rest,
    embed_corpus char_codes steady_endpoint [1%nat; 0%nat] months 1 2 8191
      {| remote := 0%nat; trace := [] |}
    = (r, w')
    ∧ trace w' = trace {| remote := 0%nat; trace := [] |}
                 ++ EvPrint 2 35 (Qmult (Qdiv (inject_Z 35) (inject_Z 1000)) (Qmake 4 10000))
                 :: rest
    ∧ (0 ≤ 8191 →
       35 = foldr Z.add 0
              ((λ text, Z.min 8191 (Z.of_nat (length (char_codes text)))) <$> months))
    ∧ (1 ≤ 1 → 1 ≤ 2 →
       ∃ batches, batchify (encoded_corpus char_codes months 8191) 1 = Returned batches
         ∧ ∀ (k : nat) b, batches !! k = Some b →
             EvSubmit k b ∈ rest ∧ EvRequest b ∈ rest).
Proof.
  apply (cost_estimate_precedes_requests char_codes steady_endpoint [1%nat; 0%nat]
           months 1 2 8191 {| remote := 0%nat; trace := [] |}).
Defined.

(** C2.  [get_embeddings] sends each batch once: against an endpoint that
    turns the first request down for rate limiting and serves every later
    one, the run raises the rate-limit error after a single request,
    although a second attempt would have been answered. *)
Theorem embed_corpus_no_retry :
  let batch := [char_codes "April is a month."] in
  let run := embed_corpus char_codes throttled_endpoint [] ["April is a month."%string]
               64 8 8191 {| remote := 0%nat; trace := [] |} in
  run.1 = Raised (ServiceError RateLimitError)
  ∧ remote run.2 = 1%nat
  ∧ requests_sent (trace run.2) = [batch]
  ∧ (throttled_endpoint (remote run.2) batch).1
    = Returned [{| embedding := 1513 |}].
Proof.
  repeat split; vm_compute; reflexivity.
Qed.

(** * Further properties of the splitters *)

(** The rounded quotient is within half a batch of the exact one. *)
Lemma round_half_even_near (N b : Z) :
  0 ≤ N → 1 ≤ b →
  (2 * round_half_even N b - 1) * b ≤ 2 * N ≤ (2 * round_half_even N b + 1) * b.
Proof.
  intros HN Hb. unfold round_half_even.
  pose proof (Z.mod_pos_bound N b ltac:(lia)) as Hmod.
  pose proof (Z.div_mod N b ltac:(lia)) as Hdiv.
  destruct (Z.compare_spec (Z.abs (2 * (N mod b))) (Z.abs b)) as [Heq|Hlt|Hgt].
  - destruct (Z.even (N / b)); nia.
  - nia.
  - nia.
Qed.

(** With a negative batch size the rounded quotient is never above zero. *)
Lemma round_half_even_negative (N b : Z) :
  0 ≤ N → b < 0 → round_half_even N b ≤ 0.
Proof.
  intros HN Hb. unfold round_half_even.
  pose proof (Z.mod_neg_bound N b ltac:(lia)) as Hmod.
  pose proof (Z.div_mod N b ltac:(lia)) as Hdiv.
  assert (N / b ≤ 0) as Hq by nia.
  destruct (Z.compare_spec (Z.abs (2 * (N mod b))) (Z.abs b)) as [Heq|Hlt|Hgt].
  - destruct (Z.even (N / b)) eqn:Hev; [lia|].
    assert (N / b ≠ 0) by (intros E; rewrite E in Hev; done). lia.
  - lia.
  - assert (N / b ≠ 0); [|lia]. intros E. rewrite E in Hdiv. lia.
Qed.

(** No section of [array_split] is larger than the rounded-up average. *)
Lemma section_sizes_ceil (Ntotal Nsections : Z) :
  0 ≤ Ntotal → 1 ≤ Nsections →
  Forall (λ s, Nsections * s ≤ Ntotal + Nsections - 1)
    (tail (section_sizes Ntotal Nsections)).
Proof.
  intros HN Hk. unfold section_sizes. simpl.
  pose proof (Z.mod_pos_bound Ntotal Nsections ltac:(lia)) as Hmod.
  pose proof (Z.div_mod Ntotal Nsections ltac:(lia)) as Hdiv.
  apply Forall_app. split.
  - destruct (Z.to_nat (Ntotal mod Nsections)) eqn:Hextras; [by constructor|].
    apply Forall_replicate. nia.
  - apply Forall_replicate. nia.
Qed.

Lemma length_sections_from_sizes {A : Type} (l : list A) (sizes : list Z) (acc : Z) :
  length (sections_from l acc sizes) = length sizes.
Proof. revert acc. induction sizes as [|s sizes IH]; intros acc; simpl; by f_equal. Qed.

(** The chunks of [to_batches] and their sizes, for a batch size of at
    least one. *)
Lemma to_batches_sizes {A : Type} (self : BatchGenerator) (df : list A) :
  1 ≤ batch_size self →
  let N := Z.of_nat (length df) in
  let k := Z.max 1 (round_half_even N (batch_size self)) in
  ∃ chunks, to_batches self df = Returned chunks
    ∧ Z.of_nat (length chunks) = k
    ∧ Forall (λ c, N / k ≤ Z.of_nat (length c) ≤ N / k + 1
                   ∧ k * Z.of_nat (length c) ≤ N + k - 1) chunks.
Proof.
  intros Hb N k.
  destruct (to_batches_cases self df Hb) as [_ [[Hle Hone]|[Hsplits Hmany]]].
  - exists [df]. split; [done|]. fold N in Hle.
    assert (k = 1) as Hk by (unfold k; lia). rewrite Hk.
    split; [done|]. constructor; [|done]. fold N. rewrite Z.div_1_r. lia.
  - destruct Hmany as (sizes & Hsz & Hres & Hlen & Hsum & Hall).
    fold N in Hsplits, Hsz, Hlen, Hsum.
    assert (round_half_even N (batch_size self) = k) as Hk by (unfold k; lia).
    rewrite Hk in Hsplits, Hsz, Hlen.
    exists (sections_from df 0 sizes). split; [done|].
    split; [rewrite length_sections_from_sizes; lia|].
    assert ((λ c, Z.of_nat (length c)) <$> sections_from df 0 sizes = sizes) as Hlens.
    { apply length_sections_from; [|lia..].
      eapply Forall_impl; [exact Hall|]. simpl. lia. }
    destruct (section_sizes_spec N k) as (sizes' & Hsz' & _ & _ & Hfloor); [lia..|].
    pose proof (section_sizes_ceil N k ltac:(lia) ltac:(lia)) as Hceil.
    rewrite Hsz in Hsz', Hceil. injection Hsz' as <-. simpl in Hceil.
    rewrite <- Hlens in Hfloor, Hceil. rewrite Forall_fmap in Hfloor, Hceil.
    apply Forall_and. split; [exact Hfloor | exact Hceil].
Qed.

(** X1.  For a batch size of at least one [to_batches] yields
    [max(1, round(N / batch_size))] chunks, and the chunks are balanced:
    the sizes of any two of them differ by at most one row. *)
Theorem to_batches_balanced {A : Type} (self : BatchGenerator) (df : list A) :
  1 ≤ batch_size self →
  ∃ chunks, to_batches self df = Returned chunks
    ∧ Z.of_nat (length chunks)
      = Z.max 1 (round_half_even (Z.of_nat (length df)) (batch_size self))
    ∧ ∀ c c', c ∈ chunks → c' ∈ chunks →
        Z.abs (Z.of_nat (length c) - Z.of_nat (length c')) ≤ 1.
Proof.
  intros Hb.
  destruct (to_batches_sizes self df Hb) as (chunks & Hres & Hcount & Hall).
  exists chunks. split; [done|]. split; [done|].
  intros c c' Hc Hc'.
  pose proof (proj1 (Forall_forall _ _) Hall c Hc) as [? _].
  pose proof (proj1 (Forall_forall _ _) Hall c' Hc') as [? _].
  lia.
Qed.

Lemma to_batches_balanced_witness :
  1 ≤ batch_size {| batch_size := 3 |}
  ∧ ∃ chunks, to_batches {| batch_size := 3 |} [1; 2; 3; 4; 5; 6; 7; 8; 9; 10]
              = Returned chunks
    ∧ Z.of_nat (length chunks)
      = Z.max 1 (round_half_even (Z.of_nat (length [1; 2; 3; 4; 5; 6; 7; 8; 9; 10]))
                   (batch_size {| batch_size := 3 |}))
    ∧ ∀ c c', c ∈ chunks → c' ∈ chunks →
        Z.abs (Z.of_nat (length c) - Z.of_nat (length c')) ≤ 1.
Proof.
  split; [simpl; lia|].
  apply (to_batches_balanced {| batch_size := 3 |} [1; 2; 3; 4; 5; 6; 7; 8; 9; 10]).
  simpl; lia.
Defined.

Lemma to_batches_chunks_spec {A : Type} (self : BatchGenerator) (df : list A) :
  1 ≤ batch_size self →
  ∃ chunks, to_batches self df = Returned chunks
    ∧ concat chunks = df
    ∧ Z.of_nat (length chunks)
      = Z.max 1 (round_half_even (Z.of_nat (length df)) (batch_size self))
    ∧ Forall (λ c, 2 * Z.of_nat (length c) ≤ 3 * batch_size self) chunks.
Proof.
  intros Hb.
  destruct (to_batches_sizes self df Hb) as (chunks & Hres & Hcount & Hall).
  destruct (to_batches_partition self df Hb) as (chunks' & Hres' & Hcat & _).
  rewrite Hres in Hres'. injection Hres' as <-.
  exists chunks. split; [done|]. split; [done|]. split; [done|].
  pose proof (round_half_even_near (Z.of_nat (length df)) (batch_size self)
                ltac:(lia) Hb) as Hnear.
  pose proof (round_half_even_small (Z.of_nat (length df)) (batch_size self)
                ltac:(lia) Hb) as Hsmall.
  eapply Forall_impl; [exact Hall|]. simpl. intros c [_ Hceil].
  set (N := Z.of_nat (length df)) in *.
  set (b := batch_size self) in *.
  set (s := Z.of_nat (length c)) in *.
  set (r := round_half_even N b) in *.
  destruct (Z.le_gt_cases r 1) as [Hle|Hgt].
  - rewrite Z.max_l in Hceil by lia. apply Hsmall in Hle. lia.
  - rewrite Z.max_r in Hceil by lia.
    destruct (Z.eq_dec b 1) as [Hb1|Hb1]; [nia|].
    assert (2 ≤ b) by lia.
    assert (2 * r * s ≤ 3 * b * r); [|nia].
    nia.
Qed.

(** X2.  The batch size is not an upper bound on the chunks of
    [to_batches], but one and a half times the batch size is: no chunk has
    more than [3 * batch_size / 2] rows. *)
Theorem to_batches_chunk_bound {A : Type} (self : BatchGenerator) (df : list A) :
  1 ≤ batch_size self →
  ∃ chunks, to_batches self df = Returned chunks
    ∧ Forall (λ c, 2 * Z.of_nat (length c) ≤ 3 * batch_size self) chunks.
Proof.
  intros Hb.
  destruct (to_batches_chunks_spec self df Hb) as (chunks & Hres & _ & _ & Hall).
  by exists chunks.
Qed.

Lemma to_batches_chunk_bound_witness :
  1 ≤ batch_size {| batch_size := 2 |}
  ∧ ∃ chunks, to_batches {| batch_size := 2 |} [1; 2; 3; 4; 5] = Returned chunks
    ∧ Forall (λ c, 2 * Z.of_nat (length c) ≤ 3 * batch_size {| batch_size := 2 |}) chunks.
Proof.
  split; [simpl; lia|].
  apply (to_batches_chunk_bound {| batch_size := 2 |} [1; 2; 3; 4; 5]). simpl; lia.
Defined.

Example to_batches_chunk_above_batch_size :
  to_batches {| batch_size := 2 |} [1; 2; 3; 4; 5] = Returned [[1; 2; 3]; [4; 5]].
Proof. reflexivity. Qed.

(** X3.  A batch size that is not positive: with zero, [to_batches] raises
    [ZeroDivisionError] for every table, before it yields anything; with a
    negative one it yields the whole table as a single chunk. *)
Theorem to_batches_nonpositive_batch_size {A : Type} (self : BatchGenerator) (df : list A) :
  batch_size self ≤ 0 →
  to_batches self df
  = if batch_size self =? 0 then Raised ZeroDivisionError else Returned [df].
Proof.
  intros Hb. unfold to_batches, splits_num, py_round_div.
  destruct (Z.eqb_spec (batch_size self) 0); [done|]. simpl.
  pose proof (round_half_even_negative (Z.of_nat (length df)) (batch_size self)
                ltac:(lia) ltac:(lia)).
  by destruct (Z.leb_spec (round_half_even (Z.of_nat (length df)) (batch_size self)) 1);
    [|lia].
Qed.

Lemma to_batches_nonpositive_batch_size_witness :
  batch_size {| batch_size := 0 |} ≤ 0
  ∧ to_batches {| batch_size := 0 |} [1; 2; 3]
    = if batch_size {| batch_size := 0 |} =? 0
      then Raised ZeroDivisionError else Returned [[1; 2; 3]].
Proof.
  split; [simpl; lia|].
  apply (to_batches_nonpositive_batch_size {| batch_size := 0 |} [1; 2; 3]). simpl; lia.
Defined.

(** * Further properties of the embedding pipeline *)

Section PipelineAccounting.

Context (encode : string → list token) {vector service : Type}.
Context (create : service → list (list token) → outcome (list (datum vector)) * service).

Lemma requests_sent_app (tr tr' : list event) :
  requests_sent (tr ++ tr') = requests_sent tr ++ requests_sent tr'.
Proof. apply omap_app. Qed.

Lemma progress_sum_app (tr tr' : list event) :
  progress_sum (tr ++ tr') = progress_sum tr + progress_sum tr'.
Proof. unfold progress_sum. by rewrite omap_app, sum_list_Z_app. Qed.

Lemma submissions_app (tr tr' : list event) :
  submissions (tr ++ tr') = submissions tr ++ submissions tr'.
Proof. apply omap_app. Qed.

Lemma pending_args_pending (batches : list (list (list token))) :
  pending_args (pending (vector := vector) <$> batches) = batches.
Proof. induction batches as [|b batches IH]; [done|]. simpl. by f_equal. Qed.

Lemma pending_args_done (futs : list (future vector)) :
  Forall (λ fut, is_Some (state fut)) futs → pending_args futs = [].
Proof.
  induction 1 as [|fut futs [r Hr] _ IH]; [done|].
  unfold pending_args in *. simpl. by rewrite Hr.
Qed.

Lemma submit_events_accounts (k : nat) (bs : list (list (list token))) :
  requests_sent (imap (λ i b, EvSubmit (k + i) b) bs) = []
  ∧ progress_sum (imap (λ i b, EvSubmit (k + i) b) bs) = 0
  ∧ submissions (imap (λ i b, EvSubmit (k + i) b) bs)
    = imap (λ i b, ((k + i)%nat, b)) bs.
Proof.
  revert k. induction bs as [|b bs IH]; intros k; [done|].
  destruct (IH (S k)) as (IH1 & IH2 & IH3).
  rewrite !imap_cons.
  rewrite (imap_ext _ (λ i b0, EvSubmit (S k + i) b0) bs)
    by (intros; simpl; f_equal; lia).
  rewrite (imap_ext ((λ i b0, ((k + i)%nat, b0)) ∘ S) (λ i b0, ((S k + i)%nat, b0)) bs)
    by (intros; simpl; f_equal; lia).
  split; [exact IH1|]. split; [exact IH2|].
  unfold submissions in *. cbn [omap list_omap]. by rewrite IH3.
Qed.

(** One step of the pool: a pending future becomes a request and an
    advance of the progress bar, once. *)
Lemma complete_accounts (batch_size : Z) (i : nat)
    (futs : list (future vector)) (w : world service) :
  ∃ futs' w', complete create batch_size i futs w = (Returned futs', w')
    ∧ requests_sent (trace w') ++ pending_args futs'
      ≡ₚ requests_sent (trace w) ++ pending_args futs
    ∧ progress_sum (trace w') + batch_size * Z.of_nat (length (pending_args futs'))
      = progress_sum (trace w) + batch_size * Z.of_nat (length (pending_args futs))
    ∧ submissions (trace w') = submissions (trace w).
Proof.
  unfold complete.
  destruct (futs !! i) as [[input [r|]]|] eqn:Hi; [by eexists _, _| |by eexists _, _].
  rewrite get_embeddings_spec. unfold io_bind, emit, io_ret. simpl.
  eexists _, _. split; [done|]. simpl.
  pose proof (lookup_lt_Some _ _ _ Hi) as Hlt.
  rewrite insert_take_drop by done.
  pose proof (take_drop_middle futs i _ Hi) as Hmid.
  remember (take i futs) as l1 eqn:Hl1. remember (drop (S i) futs) as l2 eqn:Hl2.
  clear Hl1 Hl2 Hi Hlt. subst futs.
  unfold pending_args. rewrite !omap_app. simpl.
  rewrite !requests_sent_app, !progress_sum_app, !submissions_app. simpl.
  rewrite !app_nil_r. split; [|split; [|done]].
  - rewrite <- !app_assoc. apply Permutation_app_head. simpl.
    by rewrite Permutation_middle.
  - rewrite !length_app. simpl. unfold progress_sum, sum_list_Z. simpl. lia.
Qed.

Lemma complete_in_order_accounts (batch_size : Z) (order : list nat) :
  ∀ (futs : list (future vector)) (w : world service),
    ∃ futs' w', complete_in_order create batch_size order futs w = (Returned futs', w')
      ∧ requests_sent (trace w') ++ pending_args futs'
        ≡ₚ requests_sent (trace w) ++ pending_args futs
      ∧ progress_sum (trace w') + batch_size * Z.of_nat (length (pending_args futs'))
        = progress_sum (trace w) + batch_size * Z.of_nat (length (pending_args futs))
      ∧ submissions (trace w') = submissions (trace w).
Proof.
  induction order as [|i order IH]; intros futs w; [by eexists _, _|].
  cbn [complete_in_order]. unfold io_bind.
  destruct (complete_accounts batch_size i futs w)
    as (futs1 & w1 & -> & Hperm1 & Hsum1 & Hsub1).
  destruct (IH futs1 w1) as (futs2 & w2 & -> & Hperm2 & Hsum2 & Hsub2).
  exists futs2, w2. split; [done|]. split; [by rewrite Hperm2|].
  split; [lia|congruence].
Qed.

(** The run of [embed_corpus] with an accepted worker count: what it
    returns, and what it has requested, submitted and reported. *)
Lemma embed_corpus_accounts (sched : list nat) (corpus : list string)
    (batch_size num_workers max_context_len : Z) (w : world service)
    (batches : list (list (list token))) :
  1 ≤ num_workers →
  batchify (encoded_corpus encode corpus max_context_len) batch_size = Returned batches →
  ∃ futs r w',
    embed_corpus encode create sched corpus batch_size num_workers max_context_len w
    = (r, w')
    ∧ gather create futs [] w' = (r, w')
    ∧ fn_arg <$> futs = batches
    ∧ Forall (λ fut, is_Some (state fut)) futs
    ∧ requests_sent (trace w') ≡ₚ requests_sent (trace w) ++ batches
    ∧ progress_sum (trace w')
      = progress_sum (trace w) + batch_size * Z.of_nat (length batches)
    ∧ submissions (trace w') = submissions (trace w) ++ imap pair batches.
Proof.
  intros Hworkers Hbatches.
  unfold embed_corpus. rewrite Hbatches.
  unfold io_bind at 1. unfold emit at 1.
  unfold io_bind at 1. unfold thread_pool_executor.
  destruct (Z.leb_spec num_workers 0); [lia|]. unfold io_ret at 1.
  unfold io_bind at 1. unfold lift at 1.
  unfold io_bind at 1. rewrite submit_all_spec. cbn [remote trace app length Nat.add].
  unfold io_bind at 1.
  match goal with |- context [as_completed create sched batch_size ?fs ?w0] =>
    destruct (as_completed_ok create (trace w0) [] sched batch_size fs w0)
      as (futs & w1 & more & Hres & _ & Hargs & _ & Hdone);
    [by rewrite app_nil_r
    |apply Forall_fmap, Forall_true; intros b; by unfold settled
    |destruct (complete_in_order_accounts batch_size (sched ++ seq 0 (length fs)) fs w0)
       as (futs' & w1' & Hres' & Hperm & Hsum & Hsub)]
  end.
  unfold as_completed in Hres. rewrite Hres in Hres'. injection Hres' as <- <-.
  unfold as_completed. rewrite Hres.
  destruct (gather_world create futs [] w1 Hdone) as [r Hr].
  exists futs, r, w1. split; [done|]. split; [done|].
  rewrite pending_args_done in Hperm, Hsum by done.
  rewrite pending_args_pending in Hperm, Hsum.
  rewrite app_nil_r in Hperm. simpl in Hperm, Hsum, Hsub.
  destruct (submit_events_accounts 0 batches) as (Hs1 & Hs2 & Hs3).
  simpl in Hs1, Hs2, Hs3.
  rewrite !requests_sent_app, Hs1 in Hperm. rewrite !progress_sum_app, Hs2 in Hsum.
  rewrite !submissions_app, Hs3 in Hsub.
  simpl in Hperm, Hsum, Hsub.
  repeat rewrite app_nil_r in Hperm. repeat rewrite app_nil_r in Hsub.
  rewrite Hargs, <- list_fmap_compose.
  split; [apply list_fmap_id|]. split; [done|]. split; [done|].
  split; [|done]. unfold progress_sum, sum_list_Z in *. simpl in *. lia.
Qed.


Lemma complete_in_order_no_futures (batch_size : Z) (order : list nat)
    (w : world service) :
  complete_in_order create batch_size order [] w = (Returned [], w).
Proof.
  induction order as [|i order IH]; [done|].
  cbn [complete_in_order]. unfold io_bind, complete. by rewrite lookup_nil.
Qed.

(** A run in which [batchify] yields no batch stops after the print and
    returns the empty list. *)
Lemma embed_corpus_no_batches (sched : list nat) (corpus : list string)
    (batch_size num_workers max_context_len : Z) (w : world service) :
  1 ≤ num_workers →
  batchify (encoded_corpus encode corpus max_context_len) batch_size = Returned [] →
  let encoded := encoded_corpus encode corpus max_context_len in
  embed_corpus encode create sched corpus batch_size num_workers max_context_len w
  = (Returned [],
     {| remote := remote w;
        trace := trace w ++ [EvPrint (Z.of_nat (length encoded)) (num_tokens encoded)
                               (cost_to_embed_tokens (num_tokens encoded))] |}).
Proof.
  intros Hworkers Hbatches encoded.
  unfold embed_corpus. rewrite Hbatches. fold encoded.
  unfold io_bind at 1. unfold emit at 1.
  unfold io_bind at 1. unfold thread_pool_executor.
  destruct (Z.leb_spec num_workers 0); [lia|]. unfold io_ret at 1.
  unfold io_bind at 1. unfold lift at 1.
  unfold io_bind at 1. cbn [submit_all]. unfold io_ret at 1.
  unfold io_bind at 1. unfold as_completed.
  by rewrite complete_in_order_no_futures.
Qed.

End PipelineAccounting.

Lemma batchify_negative_step {A : Type} (iterable : list A) (n : Z) :
  n < 0 → batchify iterable n = Returned [].
Proof.
  intros Hn. unfold batchify, py_range.
  destruct (Z.eqb_spec n 0); [lia|]. simpl.
  destruct (Z.to_nat _); [done|]. simpl. unfold before_stop.
  destruct (Z.ltb_spec 0 n); [lia|].
  by destruct (Z.ltb_spec (Z.of_nat (length iterable)) 0); [lia|].
Qed.

Lemma batchify_count {A : Type} (iterable : list A) (n : Z) :
  1 ≤ n →
  ∃ chunks, batchify iterable n = Returned chunks
    ∧ (Z.of_nat (length chunks) - 1) * n < Z.of_nat (length iterable)
        ≤ Z.of_nat (length chunks) * n.
Proof.
  intros Hn. eexists. split; [by apply batchify_closed_form|].
  rewrite length_fmap, length_seq.
  destruct (range_len_bounds (Z.of_nat (length iterable)) n) as (_ & Hlo & Hhi); lia.
Qed.

Lemma length_encoded_corpus (encode : string → list token) (corpus : list string)
    (max_context_len : Z) :
  length (encoded_corpus encode corpus max_context_len) = length corpus.
Proof. unfold encoded_corpus, encode_batch. by rewrite !length_fmap. Qed.

(** X4.  In a run with an accepted batch size and worker count every batch
    is submitted once, in order, and requested exactly once: whatever the
    endpoint answers (errors included) and in whatever order the pool
    completes the futures, no request is repeated, and none is cancelled
    or skipped because another one failed. *)
Theorem embed_corpus_requests_each_batch_once {vector service : Type}
    (encode : string → list token)
    (create : service → list (list token) → outcome (list (datum vector)) * service)
    (sched : list nat) (corpus : list string)
    (batch_size num_workers max_context_len : Z) (w : world service) :
  1 ≤ batch_size → 1 ≤ num_workers →
  ∃ r w' batches,
    batchify (encoded_corpus encode corpus max_context_len) batch_size = Returned batches
    ∧ embed_corpus encode create sched corpus batch_size num_workers max_context_len w
      = (r, w')
    ∧ requests_sent (trace w') ≡ₚ requests_sent (trace w) ++ batches
    ∧ submissions (trace w') = submissions (trace w) ++ imap pair batches.
Proof.
  intros Hbatch Hworkers.
  destruct (batchify_concat (encoded_corpus encode corpus max_context_len) batch_size Hbatch)
    as (batches & Hbatches & _).
  destruct (embed_corpus_accounts encode create sched corpus batch_size num_workers
              max_context_len w batches Hworkers Hbatches)
    as (futs & r & w' & Hrun & _ & _ & _ & Hperm & _ & Hsub).
  by exists r, w', batches.
Qed.

Lemma embed_corpus_requests_each_batch_once_witness :
  1 ≤ 1 ∧ 1 ≤ 2
  ∧ ∃ r w' batches,
      batchify (encoded_corpus char_codes blank_second 8191) 1 = Returned batches
      ∧ embed_corpus char_codes strict_endpoint [1%nat; 0%nat] blank_second 1 2 8191
          {| remote := 0%nat; trace := [] |}
        = (r, w')
      ∧ requests_sent (trace w')
        ≡ₚ requests_sent (trace {| remote := 0%nat; trace := [] |}) ++ batches
      ∧ submissions (trace w')
        = submissions (trace {| remote := 0%nat; trace := [] |}) ++ imap pair batches.
Proof.
  split; [lia|]. split; [lia|].
  apply (embed_corpus_requests_each_batch_once char_codes strict_endpoint
           [1%nat; 0%nat] blank_second 1 2 8191 {| remote := 0%nat; trace := [] |}); lia.
Defined.

(** X5.  The progress bar is advanced by [batch_size] for every batch,
    whatever the batch holds: over a run it advances by a multiple of the
    batch size that is at least the number of articles and less than one
    batch more, so it overshoots its total unless the batch size divides
    the number of articles. *)
Theorem embed_corpus_progress_total {vector service : Type}
    (encode : string → list token)
    (create : service → list (list token) → outcome (list (datum vector)) * service)
    (sched : list nat) (corpus : list string)
    (batch_size num_workers max_context_len : Z) (w : world service) :
  1 ≤ batch_size → 1 ≤ num_workers →
  ∃ r w' (batches : nat),
    embed_corpus encode create sched corpus batch_size num_workers max_context_len w
    = (r, w')
    ∧ progress_sum (trace w') - progress_sum (trace w) = batch_size * Z.of_nat batches
    ∧ Z.of_nat (length corpus) ≤ batch_size * Z.of_nat batches
        < Z.of_nat (length corpus) + batch_size.
Proof.
  intros Hbatch Hworkers.
  destruct (batchify_count (encoded_corpus encode corpus max_context_len) batch_size Hbatch)
    as (batches & Hbatches & Hcount).
  rewrite length_encoded_corpus in Hcount.
  destruct (embed_corpus_accounts encode create sched corpus batch_size num_workers
              max_context_len w batches Hworkers Hbatches)
    as (futs & r & w' & Hrun & _ & _ & _ & _ & Hsum & _).
  exists r, w', (length batches). split; [done|]. split; lia.
Qed.

Lemma embed_corpus_progress_total_witness :
  1 ≤ 64 ∧ 1 ≤ 8
  ∧ ∃ r w' (batches : nat),
      embed_corpus char_codes steady_endpoint [] months 64 8 8191
        {| remote := 0%nat; trace := [] |}
      = (r, w')
      ∧ progress_sum (trace w') - progress_sum (trace {| remote := 0%nat; trace := [] |})
        = 64 * Z.of_nat batches
      ∧ Z.of_nat (length months) ≤ 64 * Z.of_nat batches < Z.of_nat (length months) + 64.
Proof.
  split; [lia|]. split; [lia|].
  apply (embed_corpus_progress_total char_codes steady_endpoint [] months 64 8 8191
           {| remote := 0%nat; trace := [] |}); lia.
Defined.

(** X6.  A worker count that is not positive, or a batch size of zero, is
    refused with a [ValueError] for every corpus (the empty one included),
    but only after the statistics have been printed; nothing has been
    submitted or requested and the endpoint has not been touched. *)
Theorem embed_corpus_rejected_parameters {vector service : Type}
    (encode : string → list token)
    (create : service → list (list token) → outcome (list (datum vector)) * service)
    (sched : list nat) (corpus : list string)
    (batch_size num_workers max_context_len : Z) (w : world service) :
  num_workers ≤ 0 ∨ batch_size = 0 →
  let encoded := encoded_corpus encode corpus max_context_len in
  embed_corpus encode create sched corpus batch_size num_workers max_context_len w
  = (Raised ValueError,
     {| remote := remote w;
        trace := trace w ++ [EvPrint (Z.of_nat (length corpus)) (num_tokens encoded)
                               (cost_to_embed_tokens (num_tokens encoded))] |}).
Proof.
  intros Hbad encoded.
  unfold embed_corpus, io_bind, emit, thread_pool_executor, lift, io_ret.
  fold encoded. unfold encoded at 1. rewrite length_encoded_corpus.
  destruct (Z.leb_spec num_workers 0); [done|].
  destruct Hbad as [?| ->]; [lia|]. done.
Qed.

Lemma embed_corpus_rejected_parameters_witness :
  (8 ≤ 0 ∨ 0 = 0)
  ∧ embed_corpus char_codes steady_endpoint [] [] 0 8 8191
      {| remote := 0%nat; trace := [] |}
    = (Raised ValueError,
       {| remote := remote {| remote := 0%nat; trace := [] |};
          trace := trace {| remote := 0%nat; trace := [] |}
                   ++ [EvPrint (Z.of_nat (length (@nil string)))
                         (num_tokens (encoded_corpus char_codes [] 8191))
                         (cost_to_embed_tokens
                            (num_tokens (encoded_corpus char_codes [] 8191)))] |}).
Proof.
  split; [right; reflexivity|].
  apply (embed_corpus_rejected_parameters char_codes steady_endpoint [] [] 0 8 8191
           {| remote := 0%nat; trace := [] |}).
  right; reflexivity.
Defined.

(** X7.  A negative batch size is not refused: for every corpus the run
    prints the statistics, sends nothing and returns the empty list, so
    the vectors of a non-empty corpus are silently missing. *)
Theorem embed_corpus_negative_batch_size {vector service : Type}
    (encode : string → list token)
    (create : service → list (list token) → outcome (list (datum vector)) * service)
    (sched : list nat) (corpus : list string)
    (batch_size num_workers max_context_len : Z) (w : world service) :
  batch_size < 0 → 1 ≤ num_workers →
  let encoded := encoded_corpus encode corpus max_context_len in
  embed_corpus encode create sched corpus batch_size num_workers max_context_len w
  = (Returned [],
     {| remote := remote w;
        trace := trace w ++ [EvPrint (Z.of_nat (length corpus)) (num_tokens encoded)
                               (cost_to_embed_tokens (num_tokens encoded))] |}).
Proof.
  intros Hbatch Hworkers encoded.
  rewrite (embed_corpus_no_batches encode create) by (done || by apply batchify_negative_step).
  by rewrite length_encoded_corpus.
Qed.

Lemma embed_corpus_negative_batch_size_witness :
  -1 < 0 ∧ 1 ≤ 8
  ∧ embed_corpus char_codes steady_endpoint [] months (-1) 8 8191
      {| remote := 0%nat; trace := [] |}
    = (Returned [],
       {| remote := remote {| remote := 0%nat; trace := [] |};
          trace := trace {| remote := 0%nat; trace := [] |}
                   ++ [EvPrint (Z.of_nat (length months))
                         (num_tokens (encoded_corpus char_codes months 8191))
                         (cost_to_embed_tokens
                            (num_tokens (encoded_corpus char_codes months 8191)))] |}).
Proof.
  split; [lia|]. split; [lia|].
  apply (embed_corpus_negative_batch_size char_codes steady_endpoint [] months (-1) 8 8191
           {| remote := 0%nat; trace := [] |}); lia.
Defined.

(** X8.  On the empty corpus, with a batch size other than zero and a
    positive worker count, the run prints zero articles and zero tokens,
    contacts no endpoint and returns the empty list. *)
Theorem embed_corpus_empty_corpus {vector service : Type}
    (encode : string → list token)
    (create : service → list (list token) → outcome (list (datum vector)) * service)
    (sched : list nat) (batch_size num_workers max_context_len : Z) (w : world service) :
  batch_size ≠ 0 → 1 ≤ num_workers →
  embed_corpus encode create sched [] batch_size num_workers max_context_len w
  = (Returned [],
     {| remote := remote w;
        trace := trace w ++ [EvPrint 0 0 (cost_to_embed_tokens 0)] |}).
Proof.
  intros Hbatch Hworkers.
  rewrite (embed_corpus_no_batches encode create); [done|done|].
  unfold batchify, py_range. simpl. by destruct (Z.eqb_spec batch_size 0).
Qed.

Lemma embed_corpus_empty_corpus_witness :
  64 ≠ 0 ∧ 1 ≤ 8
  ∧ embed_corpus char_codes throttled_endpoint [] [] 64 8 8191
      {| remote := 0%nat; trace := [] |}
    = (Returned [],
       {| remote := remote {| remote := 0%nat; trace := [] |};
          trace := trace {| remote := 0%nat; trace := [] |}
                   ++ [EvPrint 0 0 (cost_to_embed_tokens 0)] |}).
Proof.
  split; [lia|]. split; [lia|].
  apply (embed_corpus_empty_corpus char_codes throttled_endpoint [] 64 8 8191
           {| remote := 0%nat; trace := [] |}); lia.
Defined.

(** X9.  The responses are not checked against the batches: when the
    endpoint answers a request for [input] with the data [answer input],
    whatever its length, the run returns the embeddings of the responses
    concatenated in submission order, for every completion order. *)
Theorem embed_corpus_concatenates_responses {vector service : Type}
    (encode : string → list token)
    (create : service → list (list token) → outcome (list (datum vector)) * service)
    (answer : list (list token) → list (datum vector))
    (sched : list nat) (corpus : list string)
    (batch_size num_workers max_context_len : Z) (w : world service) :
  (∀ σ input, (create σ input).1 = Returned (answer input)) →
  1 ≤ batch_size → 1 ≤ num_workers →
  ∃ w' batches,
    batchify (encoded_corpus encode corpus max_context_len) batch_size = Returned batches
    ∧ embed_corpus encode create sched corpus batch_size num_workers max_context_len w
      = (Returned (concat ((λ b : list (list token), embedding <$> answer b) <$> batches)),
         w').
Proof.
  intros Hanswer Hbatch Hworkers.
  destruct (batchify_concat (encoded_corpus encode corpus max_context_len) batch_size Hbatch)
    as (batches & Hbatches & _).
  destruct (embed_corpus_run encode create sched corpus batch_size num_workers
              max_context_len w batches Hworkers Hbatches)
    as (futs & w1 & more & Hrun & _ & Hargs & Hsettled & Hdone).
  exists w1, batches. split; [done|]. rewrite Hrun.
  rewrite (gather_returned create (λ b : list (list token), embedding <$> answer b)).
  - simpl. by rewrite Hargs.
  - apply Forall_lookup. intros j fut Hj.
    pose proof (proj1 (Forall_lookup _ _) Hsettled j fut Hj) as Hs.
    pose proof (proj1 (Forall_lookup _ _) Hdone j fut Hj) as [r Hr].
    unfold settled in Hs. rewrite Hr in Hs. destruct Hs as [[σ ->] _].
    rewrite Hr. unfold response_of. by rewrite Hanswer.
Qed.

Lemma embed_corpus_concatenates_responses_witness :
  (∀ σ input,
     (steady_endpoint σ input).1
     = Returned ((λ t, {| embedding := sum_list_Z t |}) <$> input))
  ∧ 1 ≤ 1 ∧ 1 ≤ 2
  ∧ ∃ w' batches,
      batchify (encoded_corpus char_codes months 8191) 1 = Returned batches
      ∧ embed_corpus char_codes steady_endpoint [1%nat; 0%nat] months 1 2 8191
          {| remote := 0%nat; trace := [] |}
        = (Returned (concat ((λ b : list (list token),
                                embedding <$> ((λ t, {| embedding := sum_list_Z t |}) <$> b))
                               <$> batches)),
           w').
Proof.
  split; [intros σ input; reflexivity|]. split; [lia|]. split; [lia|].
  apply (embed_corpus_concatenates_responses char_codes steady_endpoint
           (λ input, (λ t, {| embedding := sum_list_Z t |}) <$> input)
           [1%nat; 0%nat] months 1 2 8191 {| remote := 0%nat; trace := [] |});
    [intros σ input; reflexivity | lia | lia].
Defined.

(** X10.  A negative [max_context_len] is not refused either: the slice
    [encoded_article[:max_context_len]] then drops the last
    [-max_context_len] tokens of every article (all of them when the
    article has no more than that). *)
Theorem truncation_negative_length (encode : string → list token) (corpus : list string)
    (max_context_len : Z) (i : nat) (text : string) :
  max_context_len < 0 →
  corpus !! i = Some text →
  encoded_corpus encode corpus max_context_len !! i
  = Some (take (length (encode text) - Z.to_nat (- max_context_len)) (encode text)).
Proof.
  intros HL Hi. unfold encoded_corpus, encode_batch, truncate.
  rewrite !list_lookup_fmap, Hi. simpl. f_equal.
  unfold py_slice, slice_bound. simpl.
  destruct (Z.ltb_spec max_context_len 0); [|lia].
  rewrite Z.min_l by lia. rewrite Z.sub_0_r. change (Z.to_nat 0) with 0%nat.
  rewrite drop_0. f_equal. lia.
Qed.

Lemma truncation_negative_length_witness :
  -3 < 0 ∧ months !! 0%nat = Some "April is a month."%string
  ∧ encoded_corpus char_codes months (-3) !! 0%nat
    = Some (take (length (char_codes "April is a month.") - Z.to_nat (- -3))
              (char_codes "April is a month.")).
Proof.
  split; [lia|]. split; [reflexivity|].
  apply (truncation_negative_length char_codes months (-3) 0 "April is a month.");
    [lia | reflexivity].
Defined.





(** * Properties of the loading loops and of the queries *)

Section StoreProperties.

Context {vector index score client uuid service : Type}.
Context (index_upsert : index → list (string * vector) → string → outcome unit * index).
Context (data_object_create :
           client → string → string → string → vector → outcome uuid * client).

Lemma zip_columns {B C : Type} (f : article vector → B) (g : article vector → C)
    (rows : list (article vector)) :
  zip (f <$> rows) (g <$> rows) = (λ v, (f v, g v)) <$> rows.
Proof. induction rows as [|v rows IH]; [done|]. simpl. by f_equal. Qed.

Lemma concat_request_vectors (column : article vector → vector) (ns : string)
    (batches : list (list (article vector))) :
  concat (vectors <$> (request_of column ns <$> batches))
  = (λ v, (vector_id v, column v)) <$> concat batches.
Proof.
  induction batches as [|b batches IH]; [done|].
  rewrite !fmap_cons. cbn [concat]. rewrite IH, fmap_app. f_equal.
  apply zip_columns.
Qed.

(** The upsert loop sends the batches in order and stops at the first
    refusal. *)
Lemma upsert_batches_log (column : article vector → vector) (ns : string)
    (batches : list (list (article vector))) :
  ∀ (ix : index) (log : list (upsert_request vector)),
    ∃ r ix' (k : nat),
      upsert_batches index_upsert column ns batches ix log
      = (r, ix', log ++ take k (request_of column ns <$> batches))
      ∧ (k ≤ length batches)%nat
      ∧ (r = Returned () → k = length batches)
      ∧ (∀ e, r = Raised e →
           ∃ b ix0, batches !! pred k = Some b ∧ (1 ≤ k)%nat
             ∧ (index_upsert ix0 (vectors (request_of column ns b)) ns).1 = Raised e).
Proof.
  induction batches as [|b batches IH]; intros ix log.
  - exists (Returned ()), ix, 0%nat. simpl. rewrite app_nil_r.
    repeat split; done.
  - cbn [upsert_batches].
    destruct (index_upsert ix (zip (vector_id <$> b) (column <$> b)) ns)
      as [[[]|e] ix1] eqn:Hcall.
    + destruct (IH ix1 (log ++ [request_of column ns b]))
        as (r & ix' & k & Hres & Hle & Hok & Hfail).
      exists r, ix', (S k). split.
      { unfold request_of in Hres at 1. rewrite Hres, <- app_assoc. done. }
      split; [simpl; lia|]. split; [intros Hr; simpl; f_equal; by apply Hok|].
      intros e Hr. destruct (Hfail e Hr) as (b' & ix0 & Hb' & Hk & Hcall').
      exists b', ix0. split; [|split; [lia|done]].
      destruct k as [|k]; [lia|]. done.
    + exists (Raised e), ix1, 1%nat. split; [done|]. split; [simpl; lia|].
      split; [done|]. intros e' [= <-]. exists b, ix. split; [done|].
      split; [lia|]. unfold request_of. simpl. by rewrite Hcall.
Qed.

Lemma create_rows_app (rows rows' : list (article vector)) :
  ∀ (uuids : list uuid) (c : client),
    create_rows data_object_create (rows ++ rows') uuids c
    = match create_rows data_object_create rows uuids c with
      | (Returned _, uuids', c') => create_rows data_object_create rows' uuids' c'
      | (Raised e, uuids', c') => (Raised e, uuids', c')
      end.
Proof.
  induction rows as [|v rows IH]; intros uuids c; [done|].
  simpl. destruct (data_object_create c (title v) (text v) "Article" (title_vector v))
    as [[u|e] c']; [apply IH|done].
Qed.

Lemma create_batches_concat (batches : list (list (article vector))) :
  ∀ (uuids : list uuid) (c : client),
    create_batches data_object_create batches uuids c
    = create_rows data_object_create (concat batches) uuids c.
Proof.
  induction batches as [|b batches IH]; intros uuids c; [done|].
  cbn [create_batches concat]. rewrite create_rows_app.
  destruct (create_rows data_object_create b uuids c) as [[[[]|e] uuids'] c']; [apply IH|done].
Qed.

Lemma create_rows_length (rows : list (article vector)) :
  ∀ (uuids uuids' : list uuid) (c c' : client) r,
    create_rows data_object_create rows uuids c = (r, uuids', c') →
    (length uuids ≤ length uuids' ≤ length uuids + length rows)%nat
    ∧ (r = Returned () → length uuids' = (length uuids + length rows)%nat).
Proof.
  induction rows as [|v rows IH]; intros uuids uuids' c c' r Hres; simpl in Hres.
  - injection Hres as <- <- <-. simpl. lia.
  - destruct (data_object_create c (title v) (text v) "Article" (title_vector v))
      as [[u|e] c1].
    + apply IH in Hres as [Hbounds Hok]. rewrite length_app in Hbounds, Hok.
      simpl in *. split; [lia|]. intros Hr. specialize (Hok Hr). lia.
    + injection Hres as <- <- <-. simpl. split; [lia|done].
Qed.

End StoreProperties.

(** X12.  When the index accepts every upsert, the loop over
    [df_batcher(article_df)] returns having sent every row exactly once:
    the requests, taken in order, carry the [(vector_id, vector)] pairs of
    all rows in row order, all in the given namespace; there are
    [max(1, round(N / batch_size))] requests and none carries more than
    [3 * batch_size / 2] pairs. *)
Theorem upsert_column_sends_every_row {vector index : Type}
    (index_upsert : index → list (string * vector) → string → outcome unit * index)
    (self : BatchGenerator) (column : article vector → vector) (ns : string)
    (article_df : list (article vector)) (ix : index)
    (log : list (upsert_request vector)) :
  1 ≤ batch_size self →
  (∀ ix0 vs, (index_upsert ix0 vs ns).1 = Returned ()) →
  ∃ ix' requests,
    upsert_column index_upsert self column ns article_df ix log
    = (Returned (), ix', log ++ requests)
    ∧ concat (vectors <$> requests) = (λ v, (vector_id v, column v)) <$> article_df
    ∧ Forall (λ r, namespace r = ns) requests
    ∧ Z.of_nat (length requests)
      = Z.max 1 (round_half_even (Z.of_nat (length article_df)) (batch_size self))
    ∧ Forall (λ r, 2 * Z.of_nat (length (vectors r)) ≤ 3 * batch_size self) requests.
Proof.
  intros Hb Haccept.
  destruct (to_batches_chunks_spec self article_df Hb)
    as (batches & Hbatches & Hcat & Hcount & Hbound).
  unfold upsert_column. rewrite Hbatches.
  destruct (upsert_batches_log index_upsert column ns batches ix log)
    as (r & ix' & k & Hres & Hle & Hok & Hfail).
  destruct r as [[]|e].
  2:{ destruct (Hfail e eq_refl) as (b & ix0 & _ & _ & Hcall).
      rewrite Haccept in Hcall. discriminate Hcall. }
  rewrite (Hok eq_refl) in Hres.
  rewrite take_ge in Hres by (by rewrite length_fmap).
  exists ix', (request_of column ns <$> batches). split; [done|].
  split; [by rewrite concat_request_vectors, Hcat|].
  split; [by apply Forall_fmap, Forall_true|].
  split; [by rewrite length_fmap|].
  apply Forall_fmap. eapply Forall_impl; [exact Hbound|].
  intros b Hlen. unfold request_of. simpl.
  by rewrite length_zip, !length_fmap, Nat.min_id.
Qed.

Lemma upsert_column_sends_every_row_witness :
  1 ≤ batch_size {| batch_size := 1 |}
  ∧ (∀ ix0 vs, (keeping_index ix0 vs "content").1 = Returned ())
  ∧ ∃ ix' requests,
      upsert_column keeping_index {| batch_size := 1 |} content_vector "content"
        two_articles [] []
      = (Returned (), ix', [] ++ requests)
      ∧ concat (vectors <$> requests)
        = (λ v, (vector_id v, content_vector v)) <$> two_articles
      ∧ Forall (λ r, namespace r = "content"%string) requests
      ∧ Z.of_nat (length requests)
        = Z.max 1 (round_half_even (Z.of_nat (length two_articles))
                     (batch_size {| batch_size := 1 |}))
      ∧ Forall (λ r, 2 * Z.of_nat (length (vectors r))
                     ≤ 3 * batch_size {| batch_size := 1 |}) requests.
Proof.
  split; [simpl; lia|]. split; [intros ix0 vs; reflexivity|].
  apply (upsert_column_sends_every_row keeping_index {| batch_size := 1 |}
           content_vector "content" two_articles [] []);
    [simpl; lia | intros ix0 vs; reflexivity].
Defined.



(** X14.  In the loop that creates the Weaviate objects the batching only
    groups the rows: for a batch size of at least one the cell behaves
    exactly as one loop over all rows of [article_df] in row order, whether
    the creations succeed or one fails; when it succeeds [uuids] holds one
    identifier per row. *)
Theorem import_articles_row_by_row {vector client uuid : Type}
    (data_object_create :
       client → string → string → string → vector → outcome uuid * client)
    (self : BatchGenerator) (article_df : list (article vector)) (c : client) :
  1 ≤ batch_size self →
  import_articles data_object_create self article_df c
  = create_rows data_object_create article_df [] c
  ∧ ∀ uuids c',
      import_articles data_object_create self article_df c = (Returned (), uuids, c') →
      length uuids = length article_df.
Proof.
  intros Hb.
  destruct (to_batches_partition self article_df Hb) as (batches & Hbatches & Hcat & _).
  assert (import_articles data_object_create self article_df c
          = create_rows data_object_create article_df [] c) as Heq.
  { unfold import_articles. by rewrite Hbatches, create_batches_concat, Hcat. }
  split; [done|]. intros uuids c' Hres. rewrite Heq in Hres.
  apply create_rows_length in Hres as [_ Hlen]. by apply Hlen.
Qed.

Lemma import_articles_row_by_row_witness :
  1 ≤ batch_size {| batch_size := 1 |}
  ∧ import_articles (λ (c : nat) (t ct cl : string) (v : Z), (Returned c, S c))
      {| batch_size := 1 |} two_articles 0%nat
    = create_rows (λ (c : nat) (t ct cl : string) (v : Z), (Returned c, S c))
        two_articles [] 0%nat
  ∧ ∀ uuids c',
      import_articles (λ (c : nat) (t ct cl : string) (v : Z), (Returned c, S c))
        {| batch_size := 1 |} two_articles 0%nat
      = (Returned (), uuids, c') →
      length uuids = length two_articles.
Proof.
  split; [simpl; lia|].
  apply (import_articles_row_by_row
           (λ (c : nat) (t ct cl : string) (v : Z), (Returned c, S c))
           {| batch_size := 1 |} two_articles 0%nat).
  simpl; lia.
Defined.

(** ** The dictionaries *)

Lemma py_dict_fold_absent {V : Type} (pairs : list (string * V)) :
  ∀ (d : gmap string V) (k : string),
    k ∉ pairs.*1 →
    foldl (λ d kv, <[kv.1 := kv.2]> d) d pairs !! k = d !! k.
Proof.
  induction pairs as [|[k' v'] pairs IH]; intros d k Hk; [done|].
  simpl in *. apply not_elem_of_cons in Hk as [Hne Hk].
  rewrite IH by done. by rewrite lookup_insert_ne.
Qed.

Lemma py_dict_fold_last {V : Type} (l1 l2 : list (string * V)) (k : string) (v : V) :
  ∀ d : gmap string V,
    k ∉ l2.*1 →
    foldl (λ d kv, <[kv.1 := kv.2]> d) d (l1 ++ (k, v) :: l2) !! k = Some v.
Proof.
  intros d Hk. rewrite foldl_app. simpl.
  rewrite py_dict_fold_absent by done. apply lookup_insert_eq.
Qed.

Lemma mapped_last_wins {vector : Type} (column : article vector → string)
    (l1 l2 : list (article vector)) (v : article vector) :
  vector_id v ∉ vector_id <$> l2 →
  py_dict (zip (vector_id <$> (l1 ++ v :: l2)) (column <$> (l1 ++ v :: l2))) !! vector_id v
  = Some (column v).
Proof.
  intros Hlast. rewrite zip_columns, fmap_app, fmap_cons.
  unfold py_dict. apply py_dict_fold_last.
  by rewrite <- list_fmap_compose.
Qed.

Lemma mapped_absent {vector : Type} (column : article vector → string)
    (article_df : list (article vector)) (k : string) :
  k ∉ vector_id <$> article_df →
  py_dict (zip (vector_id <$> article_df) (column <$> article_df)) !! k = None.
Proof.
  intros Hk. rewrite zip_columns. unfold py_dict.
  rewrite py_dict_fold_absent; [done|]. by rewrite <- list_fmap_compose.
Qed.

Lemma vector_ids_NoDup (n : nat) : NoDup (vector_ids n).
Proof. unfold vector_ids. apply NoDup_fmap; [apply _|apply NoDup_seq]. Qed.

Lemma mapped_NoDup {vector : Type} (column : article vector → string)
    (article_df : list (article vector)) (v : article vector) :
  NoDup (vector_id <$> article_df) → v ∈ article_df →
  py_dict (zip (vector_id <$> article_df) (column <$> article_df)) !! vector_id v
  = Some (column v).
Proof.
  intros Hnodup Hv. apply list_elem_of_split in Hv as (l1 & l2 & ->).
  apply mapped_last_wins.
  rewrite fmap_app, fmap_cons in Hnodup.
  apply NoDup_app in Hnodup as (_ & _ & Hnodup).
  by apply NoDup_cons in Hnodup as [Hnotin _].
Qed.

(** X15.  With the vector ids that the notebook gives to the rows (the row
    numbers in decimal), [titles_mapped] and [content_mapped] send the id
    of every row to the title and to the text of that row. *)
Theorem mapped_row_numbers {vector : Type} (article_df : list (article vector))
    (i : nat) (v : article vector) :
  vector_id <$> article_df = vector_ids (length article_df) →
  article_df !! i = Some v →
  vector_id v = pretty i
  ∧ titles_mapped article_df !! pretty i = Some (title v)
  ∧ content_mapped article_df !! pretty i = Some (text v).
Proof.
  intros Hids Hi.
  assert (vector_id v = pretty i) as Hid.
  { assert ((vector_id <$> article_df) !! i = Some (vector_id v)) as Hlook
      by (by rewrite list_lookup_fmap, Hi).
    rewrite Hids in Hlook. unfold vector_ids in Hlook.
    rewrite list_lookup_fmap in Hlook.
    destruct (seq 0 (length article_df) !! i) as [j|] eqn:Hj; [|done].
    apply lookup_seq in Hj as [-> _]. simpl in Hlook. by injection Hlook as <-. }
  assert (NoDup (vector_id <$> article_df)) as Hnodup
    by (rewrite Hids; apply vector_ids_NoDup).
  assert (v ∈ article_df) as Hv by (by eapply list_elem_of_lookup_2).
  split; [done|]. rewrite <- Hid. unfold titles_mapped, content_mapped.
  split; by apply mapped_NoDup.
Qed.

Lemma mapped_row_numbers_witness :
  vector_id <$> two_articles = vector_ids (length two_articles)
  ∧ two_articles !! 1%nat
    = Some {| title := "August"; text := "August is a month."; title_vector := 2;
              content_vector := 20; vector_id := "1" |}
  ∧ vector_id {| title := "August"; text := "August is a month."; title_vector := 2;
                 content_vector := 20; vector_id := "1" |} = pretty 1%nat
  ∧ titles_mapped two_articles !! pretty 1%nat = Some "August"%string
  ∧ content_mapped two_articles !! pretty 1%nat = Some "August is a month."%string.
Proof.
  split; [vm_compute; reflexivity|]. split; [reflexivity|].
  apply (mapped_row_numbers two_articles 1
           {| title := "August"; text := "August is a month."; title_vector := 2;
              content_vector := 20; vector_id := "1" |});
    [vm_compute; reflexivity | reflexivity].
Defined.

(** X16.  In general the two dictionaries hold, for a vector id, the title
    and the text of the last row that carries it (an earlier row with the
    same id is shadowed), and nothing for an id that no row carries. *)
Theorem mapped_last_row_wins {vector : Type} (l1 l2 : list (article vector))
    (v : article vector) :
  vector_id v ∉ vector_id <$> l2 →
  titles_mapped (l1 ++ v :: l2) !! vector_id v = Some (title v)
  ∧ content_mapped (l1 ++ v :: l2) !! vector_id v = Some (text v)
  ∧ ∀ k, k ∉ vector_id <$> (l1 ++ v :: l2) →
      titles_mapped (l1 ++ v :: l2) !! k = None
      ∧ content_mapped (l1 ++ v :: l2) !! k = None.
Proof.
  intros Hlast. unfold titles_mapped, content_mapped.
  split; [by apply mapped_last_wins|]. split; [by apply mapped_last_wins|].
  intros k Hk. split; by apply mapped_absent.
Qed.

Lemma mapped_last_row_wins_witness :
  (vector_id may_article ∉ vector_id <$> (@nil (article Z)))
  ∧ titles_mapped (two_articles ++ may_article :: []) !! vector_id may_article
    = Some (title may_article)
  ∧ content_mapped (two_articles ++ may_article :: []) !! vector_id may_article
    = Some (text may_article)
  ∧ ∀ k, k ∉ vector_id <$> (two_articles ++ may_article :: []) →
      titles_mapped (two_articles ++ may_article :: []) !! k = None
      ∧ content_mapped (two_articles ++ may_article :: []) !! k = None.
Proof.
  split; [simpl; apply not_elem_of_nil|].
  apply (mapped_last_row_wins two_articles [] may_article).
  simpl; apply not_elem_of_nil.
Defined.

(** ** [query_article] *)

Lemma lookup_each_present (mapped : gmap string string) (ids : list string) :
  Forall (λ k, is_Some (mapped !! k)) ids →
  ∃ xs, lookup_each mapped ids = Ok xs
    ∧ Forall2 (λ k x, mapped !! k = Some x) ids xs.
Proof.
  induction 1 as [|k ids [x Hx] _ (xs & Hxs & Hall)]; [by exists []|].
  exists (x :: xs). simpl. rewrite Hx, Hxs. split; [done|]. by constructor.
Qed.

Lemma lookup_each_missing (mapped : gmap string string) (l1 l2 : list string) (k : string) :
  Forall (λ k', is_Some (mapped !! k')) l1 →
  mapped !! k = None →
  lookup_each mapped (l1 ++ k :: l2) = Failed (KeyError k).
Proof.
  induction 1 as [|k' l1 [x Hx] _ IH]; intros Hk; simpl.
  - by rewrite Hk.
  - by rewrite Hx, IH.
Qed.

Lemma rows_of_matches {score : Type} (titles content : gmap string string)
    (matches : list (scored_match score)) :
  ∀ ts cs,
    Forall2 (λ k x, titles !! k = Some x) (match_id <$> matches) ts →
    Forall2 (λ k x, content !! k = Some x) (match_id <$> matches) cs →
    Forall2 (row_of titles content) matches
      (zip_with (λ '(i, s) '(t, c),
                   {| row_id := i; row_score := s; row_title := t; row_content := c |})
         (zip (match_id <$> matches) (match_score <$> matches)) (zip ts cs)).
Proof.
  induction matches as [|m matches IH]; intros ts cs Hts Hcs.
  - simpl. constructor.
  - rewrite fmap_cons in Hts, Hcs.
    apply Forall2_cons_inv_l in Hts as (t & ts' & Ht & Hts & ->).
    apply Forall2_cons_inv_l in Hcs as (c & cs' & Hc & Hcs & ->).
    simpl. constructor; [by repeat split|]. by apply IH.
Qed.

(** A query whose matches all have their id in both dictionaries. *)
Lemma query_article_ok {vector index score service : Type}
    (index_query : index → vector → string → Z → outcome (list (scored_match score)))
    (embedding_create : service → string → outcome (list (datum vector)) * service)
    (titles content : gmap string string) (ix : index) (query ns : string) (top_k : Z)
    (svc svc' : service) (out : list (line score))
    (d : datum vector) (ds : list (datum vector)) (matches : list (scored_match score)) :
  embedding_create svc query = (Returned (d :: ds), svc') →
  index_query ix (embedding d) ns top_k = Returned matches →
  Forall (λ m, is_Some (titles !! match_id m) ∧ is_Some (content !! match_id m)) matches →
  ∃ df,
    query_article index_query embedding_create titles content ix query ns top_k svc out
    = (Ok df, svc',
       out ++ [LineHeader query ns]
           ++ (match matches with [] => [LineNoResult] | _ :: _ => [] end)
           ++ ((λ v, LineMatch (row_title v) (row_score v)) <$> df)
           ++ [LineBlank])
    ∧ Forall2 (row_of titles content) matches df.
Proof.
  intros Hembed Hquery Hkeys. apply Forall_and in Hkeys as [Hts Hcs].
  destruct (lookup_each_present titles (match_id <$> matches)) as (ts & Hts' & Hts2);
    [by apply Forall_fmap|].
  destruct (lookup_each_present content (match_id <$> matches)) as (cs & Hcs' & Hcs2);
    [by apply Forall_fmap|].
  eexists. unfold query_article. rewrite Hembed, Hquery, Hts', Hcs'.
  split; [by rewrite <- !app_assoc|]. by apply rows_of_matches.
Qed.

(** X17.  When the index answers a query with matches whose ids all are
    keys of [titles_mapped] and [content_mapped], [query_article] returns
    one row per match, in the order of the matches, holding the id and the
    score of the match and the title and the text mapped to its id; it
    prints the header, one line per row and the closing line.  With no
    match it prints the notice and still returns the (empty) frame. *)
Theorem query_article_rows {vector index score service : Type}
    (index_query : index → vector → string → Z → outcome (list (scored_match score)))
    (embedding_create : service → string → outcome (list (datum vector)) * service)
    (titles content : gmap string string) (ix : index) (query ns : string) (top_k : Z)
    (svc svc' : service) (out : list (line score))
    (d : datum vector) (ds : list (datum vector)) (matches : list (scored_match score)) :
  embedding_create svc query = (Returned (d :: ds), svc') →
  index_query ix (embedding d) ns top_k = Returned matches →
  Forall (λ m, is_Some (titles !! match_id m) ∧ is_Some (content !! match_id m)) matches →
  ∃ df,
    query_article index_query embedding_create titles content ix query ns top_k svc out
    = (Ok df, svc',
       out ++ [LineHeader query ns]
           ++ (match matches with [] => [LineNoResult] | _ :: _ => [] end)
           ++ ((λ v, LineMatch (row_title v) (row_score v)) <$> df)
           ++ [LineBlank])
    ∧ length df = length matches
    ∧ ∀ (i : nat) m, matches !! i = Some m →
        ∃ v, df !! i = Some v ∧ row_of titles content m v.
Proof.
  intros Hembed Hquery Hkeys.
  destruct (query_article_ok index_query embedding_create titles content ix query ns
              top_k svc svc' out d ds matches Hembed Hquery Hkeys) as (df & Hres & Hrows).
  exists df. split; [done|]. split; [symmetry; by eapply Forall2_length|].
  intros i m Hi. by eapply Forall2_lookup_l.
Qed.

Lemma query_article_rows_witness :
  query_endpoint 0 "summer" = (Returned [{| embedding := 665 |}], 1%nat)
  ∧ ranked_index [{| match_id := "1"; match_score := 9 |};
                  {| match_id := "0"; match_score := 7 |}] 665 "title" 5
    = Returned [{| match_id := "1"; match_score := 9 |};
                {| match_id := "0"; match_score := 7 |}]
  ∧ Forall (λ m, is_Some (titles_mapped two_articles !! match_id m)
                 ∧ is_Some (content_mapped two_articles !! match_id m))
      [{| match_id := "1"; match_score := 9 |}; {| match_id := "0"; match_score := 7 |}]
  ∧ ∃ df,
      query_article ranked_index query_endpoint (titles_mapped two_articles)
        (content_mapped two_articles)
        [{| match_id := "1"; match_score := 9 |}; {| match_id := "0"; match_score := 7 |}]
        "summer" "title" 5 0%nat []
      = (Ok df, 1%nat,
         [] ++ [LineHeader "summer" "title"]
            ++ []
            ++ ((λ v, LineMatch (row_title v) (row_score v)) <$> df)
            ++ [LineBlank])
      ∧ length df = 2%nat
      ∧ ∀ (i : nat) m,
          [{| match_id := "1"; match_score := 9 |};
           {| match_id := "0"; match_score := 7 |}] !! i = Some m →
          ∃ v, df !! i = Some v
               ∧ row_of (titles_mapped two_articles) (content_mapped two_articles) m v.
Proof.
  assert (Forall (λ m : scored_match Z,
                    is_Some (titles_mapped two_articles !! match_id m)
                    ∧ is_Some (content_mapped two_articles !! match_id m))
            [{| match_id := "1"; match_score := 9 |};
             {| match_id := "0"; match_score := 7 |}]) as Hkeys
    by (repeat constructor; vm_compute; eexists; reflexivity).
  split; [vm_compute; reflexivity|]. split; [vm_compute; reflexivity|].
  split; [exact Hkeys|].
  apply (query_article_rows ranked_index query_endpoint (titles_mapped two_articles)
           (content_mapped two_articles)
           [{| match_id := "1"; match_score := 9 |}; {| match_id := "0"; match_score := 7 |}]
           "summer" "title" 5 0%nat 1%nat [] {| embedding := 665 |} []
           [{| match_id := "1"; match_score := 9 |}; {| match_id := "0"; match_score := 7 |}]);
    [vm_compute; reflexivity | vm_compute; reflexivity | exact Hkeys].
Defined.

(** X18.  When the index returns a match whose id is not a key of
    [titles_mapped], or one whose id is a key of [titles_mapped] like all
    the others but not of [content_mapped], [query_article] raises
    [KeyError] for the first such id in the order of the matches: it
    returns no frame and has printed the header only. *)
Theorem query_article_missing_key {vector index score service : Type}
    (index_query : index → vector → string → Z → outcome (list (scored_match score)))
    (embedding_create : service → string → outcome (list (datum vector)) * service)
    (titles content : gmap string string) (ix : index) (query ns : string) (top_k : Z)
    (svc svc' : service) (out : list (line score))
    (d : datum vector) (ds : list (datum vector))
    (l1 l2 : list (scored_match score)) (m : scored_match score) :
  embedding_create svc query = (Returned (d :: ds), svc') →
  index_query ix (embedding d) ns top_k = Returned (l1 ++ m :: l2) →
  Forall (λ m', is_Some (titles !! match_id m')) l1 →
  titles !! match_id m = None
  ∨ (Forall (λ m', is_Some (titles !! match_id m')) (m :: l2)
     ∧ Forall (λ m', is_Some (content !! match_id m')) l1
     ∧ content !! match_id m = None) →
  query_article index_query embedding_create titles content ix query ns top_k svc out
  = (Failed (KeyError (match_id m)), svc', out ++ [LineHeader query ns]).
Proof.
  intros Hembed Hquery Hbefore Hmissing.
  unfold query_article. rewrite Hembed, Hquery.
  assert (match l1 ++ m :: l2 with
          | [] => [LineNoResult (score := score)]
          | _ :: _ => []
          end = []) as -> by (by destruct l1).
  rewrite app_nil_r, fmap_app, fmap_cons.
  destruct Hmissing as [Htitle|(Hafter & Hcontent & Hkey)].
  - rewrite lookup_each_missing; [done| |done]. by apply Forall_fmap.
  - destruct (lookup_each_present titles ((match_id <$> l1) ++ match_id m :: (match_id <$> l2)))
      as (ts & -> & _).
    { rewrite <- fmap_cons, <- fmap_app. apply Forall_fmap, Forall_app. by split. }
    rewrite lookup_each_missing; [done| |done]. by apply Forall_fmap.
Qed.

Lemma query_article_missing_key_witness :
  query_endpoint 0 "summer" = (Returned [{| embedding := 665 |}], 1%nat)
  ∧ ranked_index [{| match_id := "1"; match_score := 9 |};
                  {| match_id := "7"; match_score := 7 |}] 665 "title" 5
    = Returned ([{| match_id := "1"; match_score := 9 |}]
                ++ {| match_id := "7"; match_score := 7 |} :: [])
  ∧ Forall (λ m' : scored_match Z, is_Some (titles_mapped two_articles !! match_id m'))
      [{| match_id := "1"; match_score := 9 |}]
  ∧ (titles_mapped two_articles !! match_id {| match_id := "7"; match_score := 7 |} = None
     ∨ (Forall (λ m' : scored_match Z, is_Some (titles_mapped two_articles !! match_id m'))
          ({| match_id := "7"; match_score := 7 |} :: [])
        ∧ Forall (λ m' : scored_match Z,
                    is_Some (content_mapped two_articles !! match_id m'))
            [{| match_id := "1"; match_score := 9 |}]
        ∧ content_mapped two_articles !! match_id {| match_id := "7"; match_score := 7 |}
          = None))
  ∧ query_article ranked_index query_endpoint (titles_mapped two_articles)
      (content_mapped two_articles)
      [{| match_id := "1"; match_score := 9 |}; {| match_id := "7"; match_score := 7 |}]
      "summer" "title" 5 0%nat []
    = (Failed (KeyError (match_id {| match_id := "7"; match_score := 7 |})), 1%nat,
       [] ++ [LineHeader "summer" "title"]).
Proof.
  assert (Forall (λ m' : scored_match Z,
                    is_Some (titles_mapped two_articles !! match_id m'))
            [{| match_id := "1"; match_score := 9 |}]) as Hbefore
    by (repeat constructor; vm_compute; eexists; reflexivity).
  split; [vm_compute; reflexivity|]. split; [vm_compute; reflexivity|].
  split; [exact Hbefore|]. split; [left; vm_compute; reflexivity|].
  apply (query_article_missing_key ranked_index query_endpoint
           (titles_mapped two_articles) (content_mapped two_articles)
           [{| match_id := "1"; match_score := 9 |}; {| match_id := "7"; match_score := 7 |}]
           "summer" "title" 5 0%nat 1%nat [] {| embedding := 665 |} []
           [{| match_id := "1"; match_score := 9 |}] []
           {| match_id := "7"; match_score := 7 |});
    [vm_compute; reflexivity | vm_compute; reflexivity | exact Hbefore
    | left; vm_compute; reflexivity].
Defined.

(** X19.  Loading and querying fit together: with the dictionaries built
    from a frame whose vector ids are pairwise distinct, and an index that
    returns only ids of that frame (those that were upserted), a query
    never raises [KeyError], and every row of its result carries the title
    and the text of the article whose vector id the match names. *)
Theorem query_article_finds_articles {vector index score service : Type}
    (index_query : index → vector → string → Z → outcome (list (scored_match score)))
    (embedding_create : service → string → outcome (list (datum vector)) * service)
    (article_df : list (article vector)) (ix : index) (query ns : string) (top_k : Z)
    (svc svc' : service) (out : list (line score))
    (d : datum vector) (ds : list (datum vector)) (matches : list (scored_match score)) :
  NoDup (vector_id <$> article_df) →
  embedding_create svc query = (Returned (d :: ds), svc') →
  index_query ix (embedding d) ns top_k = Returned matches →
  Forall (λ m, match_id m ∈ vector_id <$> article_df) matches →
  ∃ df out',
    query_article index_query embedding_create (titles_mapped article_df)
      (content_mapped article_df) ix query ns top_k svc out
    = (Ok df, svc', out')
    ∧ Forall2 (λ m r, ∃ v, v ∈ article_df ∧ vector_id v = match_id m
                 ∧ r = {| row_id := match_id m; row_score := match_score m;
                          row_title := title v; row_content := text v |})
        matches df.
Proof.
  intros Hnodup Hembed Hquery Hids.
  assert (∀ m, m ∈ matches →
            ∃ v, v ∈ article_df ∧ vector_id v = match_id m
              ∧ titles_mapped article_df !! match_id m = Some (title v)
              ∧ content_mapped article_df !! match_id m = Some (text v)) as Hfound.
  { intros m Hm. pose proof (proj1 (Forall_forall _ _) Hids m Hm) as Hin.
    apply list_elem_of_fmap in Hin as (v & Hid & Hv).
    exists v. split; [done|]. split; [done|]. rewrite Hid.
    unfold titles_mapped, content_mapped. split; by apply mapped_NoDup. }
  destruct (query_article_ok index_query embedding_create (titles_mapped article_df)
              (content_mapped article_df) ix query ns top_k svc svc' out d ds matches
              Hembed Hquery) as (df & Hres & Hrows).
  { apply Forall_forall. intros m Hm.
    destruct (Hfound m Hm) as (v & _ & _ & -> & ->). eauto. }
  eexists df, _. split; [exact Hres|].
  apply Forall2_same_length_lookup. split; [by eapply Forall2_length|].
  intros i m r Hm Hr.
  pose proof (Forall2_lookup_lr _ _ _ _ _ _ Hrows Hm Hr) as (Hid & Hscore & Ht & Hc).
  destruct (Hfound m) as (v & Hv & Hvid & Ht' & Hc'); [by eapply list_elem_of_lookup_2|].
  exists v. split; [done|]. split; [done|].
  rewrite Ht' in Ht. rewrite Hc' in Hc. injection Ht as Ht. injection Hc as Hc.
  destruct r. simpl in *. by subst.
Qed.

Lemma query_article_finds_articles_witness :
  NoDup (vector_id <$> two_articles)
  ∧ query_endpoint 0 "summer" = (Returned [{| embedding := 665 |}], 1%nat)
  ∧ ranked_index [{| match_id := "1"; match_score := 9 |}] 665 "content" 5
    = Returned [{| match_id := "1"; match_score := 9 |}]
  ∧ Forall (λ m : scored_match Z, match_id m ∈ vector_id <$> two_articles)
      [{| match_id := "1"; match_score := 9 |}]
  ∧ ∃ df out',
      query_article ranked_index query_endpoint (titles_mapped two_articles)
        (content_mapped two_articles) [{| match_id := "1"; match_score := 9 |}]
        "summer" "content" 5 0%nat []
      = (Ok df, 1%nat, out')
      ∧ Forall2 (λ (m : scored_match Z) r,
                   ∃ v, v ∈ two_articles ∧ vector_id v = match_id m
                     ∧ r = {| row_id := match_id m; row_score := match_score m;
                              row_title := title v; row_content := text v |})
          [{| match_id := "1"; match_score := 9 |}] df.
Proof.
  assert (NoDup (vector_id <$> two_articles)) as Hnodup
    by (apply (vector_ids_NoDup 2)).
  assert (Forall (λ m : scored_match Z, match_id m ∈ vector_id <$> two_articles)
            [{| match_id := "1"; match_score := 9 |}]) as Hids
    by (repeat constructor).
  split; [exact Hnodup|]. split; [vm_compute; reflexivity|].
  split; [vm_compute; reflexivity|]. split; [exact Hids|].
  apply (query_article_finds_articles ranked_index query_endpoint two_articles
           [{| match_id := "1"; match_score := 9 |}] "summer" "content" 5 0%nat 1%nat []
           {| embedding := 665 |} [] [{| match_id := "1"; match_score := 9 |}]);
    [exact Hnodup | vm_compute; reflexivity | vm_compute; reflexivity | exact Hids].
Defined.

(** X20.  An empty [article_df] is not skipped by the upsert loop: for a
    batch size other than zero the batcher yields the empty frame as its
    single chunk, so exactly one upsert is sent, and it carries no vector;
    the loop ends with whatever the index answers to it. *)
Theorem upsert_column_empty_frame {vector index : Type}
    (index_upsert : index → list (string * vector) → string → outcome unit * index)
    (self : BatchGenerator) (column : article vector → vector) (ns : string)
    (ix : index) (log : list (upsert_request vector)) :
  batch_size self ≠ 0 →
  upsert_column index_upsert self column ns [] ix log
  = ((index_upsert ix [] ns).1, (index_upsert ix [] ns).2,
     log ++ [{| vectors := []; namespace := ns |}]).
Proof.
  intros Hb. unfold upsert_column, to_batches, splits_num, py_round_div. simpl.
  destruct (Z.eqb_spec (batch_size self) 0); [done|]. simpl.
  unfold round_half_even. rewrite Zdiv_0_l, Zmod_0_l. simpl.
  assert ((match match Z.abs (batch_size self) with
                 | 0 => Eq | Z.pos _ => Lt | Z.neg _ => Gt end
           with Gt => 0 + 1 | _ => 0 end <=? 1) = true) as ->
    by (by destruct (Z.abs (batch_size self))).
  simpl. by destruct (index_upsert ix [] ns) as [[[]|e] ix'].
Qed.

Lemma upsert_column_empty_frame_witness :
  batch_size df_batcher ≠ 0
  ∧ upsert_column refusing_index df_batcher content_vector "content" [] [] []
    = ((refusing_index [] [] "content").1, (refusing_index [] [] "content").2,
       [] ++ [{| vectors := []; namespace := "content" |}]).
Proof.
  split; [done|].
  apply (upsert_column_empty_frame refusing_index df_batcher content_vector "content" [] []).
  done.
Defined.
